(** * Resolver.cc: the host name resolution offload engine of KFS

    A shallow embedding of [KFS::Resolver::Impl] (src/cc/kfsio/Resolver.cc).

    The first half embeds [Process], the blocking resolution procedure that
    the worker thread runs for one request.  The second half embeds the
    three execution contexts that share an [Impl] object (callers, the
    worker thread running [Run], the event loop running [Timeout]) as a
    labelled transition system whose atomic steps are the critical
    sections of [mMutex]. *)

From Stdlib Require Import ZArith String Ascii List Bool Lia Arith.
Import ListNotations.
Open Scope Z_scope.

(** ** Constants of the system headers (Linux / glibc values) *)

Definition EINVAL : Z := 22.
Definition AF_UNSPEC : Z := 0.
Definition AF_INET : Z := 2.
Definition AF_INET6 : Z := 10.
Definition SOCK_STREAM : Z := 1.
Definition NI_NUMERICHOST : Z := 1.
Definition NI_NUMERICSERV : Z := 2.
Definition INET_ADDRSTRLEN : Z := 16.
Definition INET6_ADDRSTRLEN : Z := 46.

(** ** Data *)

(** [struct sockaddr] is opaque to the resolver: raw bytes. *)
Definition sockaddr := list Z.

(** [struct addrinfo]; the [ai_next] chain is the enclosing list, the null
    pointer is [nil]. *)
Record addrinfo := mkAddrInfo {
  ai_flags : Z;
  ai_family : Z;
  ai_socktype : Z;
  ai_protocol : Z;
  ai_addrlen : Z;
  ai_addr : sockaddr
}.

(** Modelled from the spec: Resolver.h, which declares
    [Resolver::Request], is not among the sources.  The spec gives a
    request a hostname, an ordered list of textual addresses, a status code
    (0 for success) and a status message; the fields carry the names
    Resolver.cc uses for them.  The linkage field [mNextPtr] is the
    position of the request in the queue that holds it. *)
Record Request := mkRequest {
  mHostName : string;
  mIpAddresses : list string;
  mStatus : Z;
  mStatusMsg : string
}.

Definition set_mStatus (v : Z) (r : Request) : Request :=
  mkRequest (mHostName r) (mIpAddresses r) v (mStatusMsg r).
Definition set_mStatusMsg (v : string) (r : Request) : Request :=
  mkRequest (mHostName r) (mIpAddresses r) (mStatus r) v.
Definition set_mIpAddresses (v : list string) (r : Request) : Request :=
  mkRequest (mHostName r) v (mStatus r) (mStatusMsg r).

(** The resolution backend (libc).  [getaddrinfo] returns its status and
    the result chain it stored through the out parameter; [getnameinfo]
    returns its status and the bytes it produced for the host buffer, of
    which the caller's buffer receives at most [hostlen]. *)
Record Backend := mkBackend {
  getaddrinfo : string -> addrinfo -> Z * list addrinfo;
  getnameinfo : sockaddr -> Z -> Z -> Z -> Z * list ascii;
  gai_strerror : Z -> string
}.

(** What [Process] does to the outside world, in program order. *)
Inductive Effect :=
| EGetAddrInfo (host : string) (hints : addrinfo)
| EGetNameInfo (e : addrinfo) (hostlen : Z) (flags : Z)
| ENameBufStore (idx : Z)
| EFreeAddrInfo (res : list addrinfo).

(** ** The name buffer *)

(** [char mNameBuf[(INET_ADDRSTRLEN < INET6_ADDRSTRLEN ?
      INET6_ADDRSTRLEN : INET_ADDRSTRLEN) + 1]] *)
Definition mNameBuf_size : Z :=
  (if INET_ADDRSTRLEN <? INET6_ADDRSTRLEN
   then INET6_ADDRSTRLEN else INET_ADDRSTRLEN) + 1.

Definition NUL : ascii := Ascii.zero.

(** A callee writing [src] at the start of the buffer. *)
Definition blit (src dst : list ascii) : list ascii :=
  src ++ skipn (length src) dst.

(** [buf[i] = c]; an index outside the array is undefined behaviour and
    has no result. *)
Definition store (i : Z) (c : ascii) (buf : list ascii) : option (list ascii) :=
  if (0 <=? i) && (i <? Z.of_nat (length buf))
  then Some (firstn (Z.to_nat i) buf ++ c :: skipn (S (Z.to_nat i)) buf)
  else None.

(** [string(buf)]: the characters before the first NUL. *)
Fixpoint c_str (buf : list ascii) : string :=
  match buf with
  | [] => EmptyString
  | c :: rest => if Ascii.eqb c NUL then EmptyString else String c (c_str rest)
  end.

(** ** Process *)

(** The state the formatting loop of [Process] carries from one entry to
    the next. *)
Record Locals := mkLocals {
  nameBuf : list ascii;
  ipAddresses : list string;
  theErr : Z;
  effects : list Effect
}.

(** The family-selecting conditional of line 187, as written. *)
Definition theSize_of (family : Z) : Z :=
  if family =? AF_INET then INET6_ADDRSTRLEN else INET6_ADDRSTRLEN.

Definition ni_flags : Z := Z.lor NI_NUMERICHOST NI_NUMERICSERV.

Section Resolution.

Variable B : Backend.

(** The [for] loop over the result chain (lines 181-199). *)
Fixpoint format_entries (thePtr : list addrinfo) (st : Locals) : option Locals :=
  match thePtr with
  | [] => Some st
  | e :: ai_next =>
      if negb (AF_INET =? ai_family e) && negb (AF_INET6 =? ai_family e)
      then format_entries ai_next st
      else
        let theSize := theSize_of (ai_family e) in
        let '(theStatus, out) :=
          getnameinfo B (ai_addr e) (ai_addrlen e) theSize ni_flags in
        let buf1 := blit (firstn (Z.to_nat theSize) out) (nameBuf st) in
        let eff1 := effects st ++ [EGetNameInfo e theSize ni_flags] in
        if negb (0 =? theStatus)
        then format_entries ai_next
               (mkLocals buf1 (ipAddresses st) theStatus eff1)
        else
          match store theSize NUL buf1 with
          | None => None
          | Some buf2 =>
              format_entries ai_next
                (mkLocals buf2 (ipAddresses st ++ [c_str buf2]) (theErr st)
                          (eff1 ++ [ENameBufStore theSize]))
          end
  end.

Definition mAddrInfoHints : addrinfo :=
  mkAddrInfo 0 AF_UNSPEC SOCK_STREAM 0 0 [].

(** [Process(inReq)] on a worker whose name buffer holds [mNameBuf]:
    the buffer afterwards, the request afterwards, and the effects. *)
Definition Process (mNameBuf : list ascii) (inReq : Request)
  : option (list ascii * Request * list Effect) :=
  let '(st, theResPtr) := getaddrinfo B (mHostName inReq) mAddrInfoHints in
  let eff0 := [EGetAddrInfo (mHostName inReq) mAddrInfoHints] in
  let inReq := set_mStatus st inReq in
  let inReq := set_mIpAddresses [] inReq in
  if negb (0 =? mStatus inReq) then
    let inReq := set_mStatusMsg (gai_strerror B (mStatus inReq)) inReq in
    Some (mNameBuf, inReq,
          eff0 ++ match theResPtr with
                  | [] => []
                  | _ :: _ => [EFreeAddrInfo theResPtr]
                  end)
  else
    let inReq := set_mStatusMsg EmptyString inReq in
    match format_entries theResPtr
            (mkLocals mNameBuf (mIpAddresses inReq) 0 eff0) with
    | None => None
    | Some l =>
        let inReq := set_mIpAddresses (ipAddresses l) inReq in
        let eff := effects l ++ [EFreeAddrInfo theResPtr] in
        if match mIpAddresses inReq with [] => true | _ => false end
           && negb (0 =? theErr l)
        then Some (nameBuf l,
                   set_mStatusMsg (gai_strerror B (theErr l))
                     (set_mStatus (theErr l) inReq),
                   eff)
        else Some (nameBuf l, inReq, eff)
    end.

Arguments Process : simpl never.

(** *** Vocabulary for stating what [Process] achieves *)

Definition supported (e : addrinfo) : bool :=
  (ai_family e =? AF_INET) || (ai_family e =? AF_INET6).

(** Status and output of the formatting call made for entry [e]. *)
Definition fmt_call (e : addrinfo) : Z * list ascii :=
  getnameinfo B (ai_addr e) (ai_addrlen e) INET6_ADDRSTRLEN ni_flags.

Definition fmt_ok (e : addrinfo) : bool := fst (fmt_call e) =? 0.

(** The formatting errors recorded while iterating [entries], in order. *)
Definition format_errors (entries : list addrinfo) : list Z :=
  filter (fun c => negb (c =? 0)) (map (fun e => fst (fmt_call e)) (filter supported entries)).

(** The entries that were formatted successfully, in order. *)
Definition formatted (entries : list addrinfo) : list addrinfo :=
  filter fmt_ok (filter supported entries).

(** The backend's side of the [getnameinfo] contract: on success the host
    text is NUL-terminated within the [hostlen] bytes it was given. *)
Definition terminates_text (e : addrinfo) : Prop :=
  fmt_ok e = true ->
  In NUL (firstn (Z.to_nat INET6_ADDRSTRLEN) (snd (fmt_call e))).

(** The text the backend produced for [e]. *)
Definition fmt_text (e : addrinfo) : string := c_str (snd (fmt_call e)).

End Resolution.

(** The sizes [Process] hands to the formatting call and uses as the index
    of its own store. *)
Definition sized (ev : Effect) : Prop :=
  match ev with
  | EGetNameInfo _ hostlen _ => hostlen = INET6_ADDRSTRLEN
  | ENameBufStore idx => idx = INET6_ADDRSTRLEN /\ 0 <= idx < mNameBuf_size
  | _ => True
  end.

(** ** The queues *)

(** A request is known to the resolver by the address of the caller-owned
    object. *)
Definition ReqId := nat.
Bind Scope nat_scope with ReqId.

Module Queue.

(** Modelled from the spec: common/SingleLinkedQueue.h is not among the
    sources.  The spec describes an intrusive singly linked list with
    push-back of one item, check-empty, pop-front of one item and an O(1)
    splice that moves the whole source onto the destination and empties
    the source; its contents are the chain of linked requests, front
    first.  A request is linked into at most one queue at a time (the
    caller's obligation), so the chain is a list of addresses. *)
Definition t := list ReqId.

(** Modelled from the spec: [IsEmpty()] of the missing SingleLinkedQueue. *)
Definition IsEmpty (q : t) : bool :=
  match q with [] => true | _ :: _ => false end.

(** Modelled from the spec: [PushBack(Request&)] of the missing
    SingleLinkedQueue. *)
Definition PushBack (q : t) (r : ReqId) : t := q ++ [r].

(** Modelled from the spec: [PushBack(Queue&)] of the missing
    SingleLinkedQueue, the splice; the results are the destination and the
    emptied source. *)
Definition Splice (dst src : t) : t * t := (dst ++ src, []).

(** Modelled from the spec: [PopFront()] of the missing SingleLinkedQueue;
    the null pointer is [None]. *)
Definition PopFront (q : t) : option ReqId * t :=
  match q with [] => (None, []) | r :: rest => (Some r, rest) end.

End Queue.

(** ** Threads *)

(** Where [mThread] is in [Run].  [thePtr] is the part of the chain that
    starts at the request the pointer designates. *)
Inductive Worker :=
| WNone      (* no thread: never started, or joined *)
| WReady     (* about to take the mutex at the head of the loop: just
                started, or woken out of [Wait] (lines 116-119) *)
| WWaiting   (* blocked in [mCondVar.Wait], mutex released (line 119) *)
| WProc (theQueue thePtr : Queue.t)
             (* outside the mutex, walking the batch (lines 124-128) *)
| WExited.   (* [Run] has returned, the thread is not yet joined *)

(** Where the event loop is in [Timeout]. *)
Inductive Dispatcher :=
| DIdle      (* not in [Timeout] *)
| DChecked   (* found [mDoneCount] nonzero, about to take the mutex
                (lines 101-105) *)
| DDeliver (theDoneQueue : Queue.t).
             (* outside the mutex, popping and calling back
                (lines 109-112) *)

(** The [Impl] object, the two threads that run its virtual methods, the
    collaborators' view of it, the caller-owned requests, and logs of what
    has happened.

    The collaborators (NetManager.h and qcdio/QCThread.h are not among the
    sources) appear as the spec describes them: [registered] tells whether
    the event loop holds the object for its periodic timeout callback,
    [joining] whether a caller of [Shutdown] is blocked until the worker
    thread has exited, [wakeups] counts the nudges given to the event
    loop.

    The logs: requests accepted by [Enqueue], batches spliced by [Run],
    calls of [Process], calls of [Request::Done], and calls of
    [mCondVar.Notify]. *)
Record State := mkState {
  mQueue : Queue.t;
  mDoneQueue : Queue.t;
  mRunFlag : bool;
  mDoneCount : Z;
  mNameBuf : list ascii;
  worker : Worker;
  dispatcher : Dispatcher;
  registered : bool;
  joining : bool;
  requests : ReqId -> Request;
  accepted : list ReqId;
  batches : list (list ReqId);
  resolved : list ReqId;
  delivered : list ReqId;
  notifies : nat;
  wakeups : nat
}.

Definition set_mQueue (v : Queue.t) (s : State) : State :=
  mkState v (mDoneQueue s) (mRunFlag s) (mDoneCount s) (mNameBuf s)
    (worker s) (dispatcher s) (registered s) (joining s) (requests s)
    (accepted s) (batches s) (resolved s) (delivered s) (notifies s)
    (wakeups s).
Definition set_mDoneQueue (v : Queue.t) (s : State) : State :=
  mkState (mQueue s) v (mRunFlag s) (mDoneCount s) (mNameBuf s) (worker s)
    (dispatcher s) (registered s) (joining s) (requests s) (accepted s)
    (batches s) (resolved s) (delivered s) (notifies s) (wakeups s).
Definition set_mRunFlag (v : bool) (s : State) : State :=
  mkState (mQueue s) (mDoneQueue s) v (mDoneCount s) (mNameBuf s) (worker s)
    (dispatcher s) (registered s) (joining s) (requests s) (accepted s)
    (batches s) (resolved s) (delivered s) (notifies s) (wakeups s).
Definition set_mDoneCount (v : Z) (s : State) : State :=
  mkState (mQueue s) (mDoneQueue s) (mRunFlag s) v (mNameBuf s) (worker s)
    (dispatcher s) (registered s) (joining s) (requests s) (accepted s)
    (batches s) (resolved s) (delivered s) (notifies s) (wakeups s).
Definition set_mNameBuf (v : list ascii) (s : State) : State :=
  mkState (mQueue s) (mDoneQueue s) (mRunFlag s) (mDoneCount s) v (worker s)
    (dispatcher s) (registered s) (joining s) (requests s) (accepted s)
    (batches s) (resolved s) (delivered s) (notifies s) (wakeups s).
Definition set_worker (v : Worker) (s : State) : State :=
  mkState (mQueue s) (mDoneQueue s) (mRunFlag s) (mDoneCount s) (mNameBuf s)
    v (dispatcher s) (registered s) (joining s) (requests s) (accepted s)
    (batches s) (resolved s) (delivered s) (notifies s) (wakeups s).
Definition set_dispatcher (v : Dispatcher) (s : State) : State :=
  mkState (mQueue s) (mDoneQueue s) (mRunFlag s) (mDoneCount s) (mNameBuf s)
    (worker s) v (registered s) (joining s) (requests s) (accepted s)
    (batches s) (resolved s) (delivered s) (notifies s) (wakeups s).
Definition set_registered (v : bool) (s : State) : State :=
  mkState (mQueue s) (mDoneQueue s) (mRunFlag s) (mDoneCount s) (mNameBuf s)
    (worker s) (dispatcher s) v (joining s) (requests s) (accepted s)
    (batches s) (resolved s) (delivered s) (notifies s) (wakeups s).
Definition set_joining (v : bool) (s : State) : State :=
  mkState (mQueue s) (mDoneQueue s) (mRunFlag s) (mDoneCount s) (mNameBuf s)
    (worker s) (dispatcher s) (registered s) v (requests s) (accepted s)
    (batches s) (resolved s) (delivered s) (notifies s) (wakeups s).
Definition set_requests (v : ReqId -> Request) (s : State) : State :=
  mkState (mQueue s) (mDoneQueue s) (mRunFlag s) (mDoneCount s) (mNameBuf s)
    (worker s) (dispatcher s) (registered s) (joining s) v (accepted s)
    (batches s) (resolved s) (delivered s) (notifies s) (wakeups s).
Definition set_accepted (v : list ReqId) (s : State) : State :=
  mkState (mQueue s) (mDoneQueue s) (mRunFlag s) (mDoneCount s) (mNameBuf s)
    (worker s) (dispatcher s) (registered s) (joining s) (requests s) v
    (batches s) (resolved s) (delivered s) (notifies s) (wakeups s).
Definition set_batches (v : list (list ReqId)) (s : State) : State :=
  mkState (mQueue s) (mDoneQueue s) (mRunFlag s) (mDoneCount s) (mNameBuf s)
    (worker s) (dispatcher s) (registered s) (joining s) (requests s)
    (accepted s) v (resolved s) (delivered s) (notifies s) (wakeups s).
Definition set_resolved (v : list ReqId) (s : State) : State :=
  mkState (mQueue s) (mDoneQueue s) (mRunFlag s) (mDoneCount s) (mNameBuf s)
    (worker s) (dispatcher s) (registered s) (joining s) (requests s)
    (accepted s) (batches s) v (delivered s) (notifies s) (wakeups s).
Definition set_delivered (v : list ReqId) (s : State) : State :=
  mkState (mQueue s) (mDoneQueue s) (mRunFlag s) (mDoneCount s) (mNameBuf s)
    (worker s) (dispatcher s) (registered s) (joining s) (requests s)
    (accepted s) (batches s) (resolved s) v (notifies s) (wakeups s).
Definition set_notifies (v : nat) (s : State) : State :=
  mkState (mQueue s) (mDoneQueue s) (mRunFlag s) (mDoneCount s) (mNameBuf s)
    (worker s) (dispatcher s) (registered s) (joining s) (requests s)
    (accepted s) (batches s) (resolved s) (delivered s) v (wakeups s).
Definition set_wakeups (v : nat) (s : State) : State :=
  mkState (mQueue s) (mDoneQueue s) (mRunFlag s) (mDoneCount s) (mNameBuf s)
    (worker s) (dispatcher s) (registered s) (joining s) (requests s)
    (accepted s) (batches s) (resolved s) (delivered s) (notifies s) v.

Definition upd (r : ReqId) (v : Request) (h : ReqId -> Request) : ReqId -> Request :=
  fun x => if Nat.eqb x r then v else h x.

(** The object after its constructor; [mNameBuf] is not initialised, so
    its contents [buf] are arbitrary. *)
Definition construct (h : ReqId -> Request) (buf : list ascii) : State :=
  mkState [] [] false 0 buf WNone DIdle false false h [] [] [] [] 0%nat 0%nat.

(** Arithmetic of [int], the type of [mDoneCount]. *)
Definition wrap_int (z : Z) : Z := (z + 2 ^ 31) mod 2 ^ 32 - 2 ^ 31.

(** Modelled from the spec: common/kfsatomic.h is not among the sources.
    The spec has the worker mark the pending-drain indicator and the
    dispatcher read it without the lock; [SyncAddAndFetch(v, d)] adds [d]
    to the counter in one atomic step and returns the new value. *)
Definition SyncAddAndFetch (v d : Z) : Z := wrap_int (v + d).

(** Modelled from the spec: qcdio/QCMutex.h, which declares [QCCondVar],
    is not among the sources.  [mCondVar.Notify()] signals the worker's
    wait condition: a worker blocked in [Wait] becomes runnable, and
    nothing happens when it is not waiting. *)
Definition Notify (s : State) : State :=
  set_notifies (S (notifies s))
    (match worker s with
     | WWaiting => set_worker WReady s
     | _ => s
     end).

(** ** The public operations *)

(** [Start()], lines 62-72. *)
Definition Start (s : State) : Z * State :=
  if mRunFlag s then (- EINVAL, s)
  else (0, set_worker WReady (set_registered true (set_mRunFlag true s))).

(** [Shutdown()] up to [theLock.Unlock()], lines 75-81. *)
Definition Shutdown_locked (s : State) : State :=
  if negb (mRunFlag s) then s
  else set_joining true (Notify (set_mRunFlag false s)).

(** [Shutdown()] from the return of [mThread.Join()], lines 82-83. *)
Definition Shutdown_joined (s : State) : State :=
  set_joining false (set_registered false (set_worker WNone s)).

(** [Enqueue(inRequest)], lines 85-98. *)
Definition Enqueue (inRequest : ReqId) (s : State) : Z * State :=
  if negb (mRunFlag s) then (- EINVAL, s)
  else
    let theWakeFlag := Queue.IsEmpty (mQueue s) in
    let s1 := set_accepted (accepted s ++ [inRequest])
                (set_mQueue (Queue.PushBack (mQueue s) inRequest) s) in
    (0, if theWakeFlag then Notify s1 else s1).

(** ** The event loop: [Timeout()], lines 99-113 *)

Definition Timeout_step (s : State) : option State :=
  match dispatcher s with
  | DIdle =>
      if registered s then
        if 0 =? SyncAddAndFetch (mDoneCount s) 0 then Some s
        else Some (set_dispatcher DChecked s)
      else None
  | DChecked =>
      let '(theDoneQueue, emptied) := Queue.Splice [] (mDoneQueue s) in
      Some (set_dispatcher (DDeliver theDoneQueue)
              (set_mDoneCount 0 (set_mDoneQueue emptied s)))
  | DDeliver theDoneQueue =>
      match Queue.PopFront theDoneQueue with
      | (Some thePtr, rest) =>
          Some (set_delivered (delivered s ++ [thePtr])
                  (set_dispatcher (DDeliver rest) s))
      | (None, _) => Some (set_dispatcher DIdle s)
      end
  end.

(** ** The worker: [Run()], lines 114-141 *)

(** The head of the loop with the mutex held: wait, or splice the pending
    queue and leave the critical section (lines 118-123). *)
Definition Run_top (s : State) : State :=
  if mRunFlag s && Queue.IsEmpty (mQueue s) then set_worker WWaiting s
  else
    let '(theQueue, emptied) := Queue.Splice [] (mQueue s) in
    set_batches (batches s ++ [theQueue])
      (set_worker (WProc theQueue theQueue) (set_mQueue emptied s)).

(** Back under the mutex after the batch (lines 129-139); unless the loop
    is left the same critical section continues at its head. *)
Definition Run_finish (theQueue : Queue.t) (s : State) : State :=
  let theWakeupFlag :=
    negb (Queue.IsEmpty theQueue) && Queue.IsEmpty (mDoneQueue s) in
  let s1 := set_mDoneQueue (fst (Queue.Splice (mDoneQueue s) theQueue)) s in
  let s2 := if theWakeupFlag
            then set_wakeups (S (wakeups s1))
                   (set_mDoneCount (SyncAddAndFetch (mDoneCount s1) 1) s1)
            else s1 in
  if negb (mRunFlag s2) && Queue.IsEmpty (mQueue s2)
  then set_worker WExited s2
  else Run_top s2.

(** The state inside that critical section once line 132 has run and
    before line 134 does: the batch is on the done queue and the counter
    is as it was.  The worker holds the mutex there, so all that another
    thread can do to this state is the unlocked test of line 101. *)
Definition Run_spliced (theQueue : Queue.t) (s : State) : State :=
  set_mDoneQueue (fst (Queue.Splice (mDoneQueue s) theQueue)) s.

Section Engine.

Variable B : Backend.

Definition Run_step (s : State) : option State :=
  match worker s with
  | WNone | WWaiting | WExited => None
  | WReady => Some (Run_top s)
  | WProc theQueue (thePtr :: next) =>
      match Process B (mNameBuf s) (requests s thePtr) with
      | None => None
      | Some (buf, req, _) =>
          Some (set_resolved (resolved s ++ [thePtr])
                  (set_requests (upd thePtr req (requests s))
                     (set_mNameBuf buf
                        (set_worker (WProc theQueue next) s))))
      end
  | WProc theQueue [] => Some (Run_finish theQueue s)
  end.

(** ** Interleavings *)

Inductive Label :=
| LStart
| LShutdown
| LJoin
| LEnqueue (r : ReqId)
| LRun
| LSpurious
| LTimeout.

(** One atomic step of one thread.  Callers do not call [Start] while a
    [Shutdown] is still joining the worker; a condition variable may wake
    its waiter spuriously. *)
Inductive step : State -> Label -> State -> Prop :=
| step_Start s :
    joining s = false -> step s LStart (snd (Start s))
| step_Shutdown s :
    step s LShutdown (Shutdown_locked s)
| step_Join s :
    joining s = true -> worker s = WExited ->
    step s LJoin (Shutdown_joined s)
| step_Enqueue s r :
    step s (LEnqueue r) (snd (Enqueue r s))
| step_Run s s' :
    Run_step s = Some s' -> step s LRun s'
| step_Spurious s :
    worker s = WWaiting -> step s LSpurious (set_worker WReady s)
| step_Timeout s s' :
    Timeout_step s = Some s' -> step s LTimeout s'.

Inductive steps : State -> list Label -> State -> Prop :=
| steps_nil s : steps s [] s
| steps_cons s l s1 ls s2 :
    step s l s1 -> steps s1 ls s2 -> steps s (l :: ls) s2.

Definition well_constructed (s : State) : Prop :=
  exists h buf, Z.of_nat (length buf) = mNameBuf_size /\ s = construct h buf.

Inductive reachable : State -> Prop :=
| reach_init s : well_constructed s -> reachable s
| reach_step s l s' : reachable s -> step s l s' -> reachable s'.

(** The requests held by each thread. *)
Definition in_batch (s : State) : list ReqId :=
  match worker s with WProc theQueue _ => theQueue | _ => [] end.
Definition todo (s : State) : list ReqId :=
  match worker s with WProc _ thePtr => thePtr | _ => [] end.
Definition in_delivery (s : State) : list ReqId :=
  match dispatcher s with DDeliver q => q | _ => [] end.

(** Everything that has left the worker. *)
Definition completed (s : State) : list ReqId :=
  delivered s ++ in_delivery s ++ mDoneQueue s.

(** ** What holds in every reachable state *)

(** The three phases of the facade and the thread states each allows:
    running, shutting down (flag cleared, worker not yet joined), stopped. *)
Definition lifecycle (s : State) : bool :=
  match mRunFlag s, joining s, worker s with
  | true, false, (WReady | WWaiting | WProc _ _) => registered s
  | false, true, (WReady | WProc _ _) => registered s
  | false, true, WExited => registered s && Queue.IsEmpty (mQueue s)
  | false, false, WNone => negb (registered s) && Queue.IsEmpty (mQueue s)
  | _, _, _ => false
  end.

Record Inv (s : State) : Prop := mkInv {
  (** the pipeline is first in, first out *)
  inv_fifo : accepted s = completed s ++ in_batch s ++ mQueue s;
  (** the worker resolves its batch front to back *)
  inv_resolved :
    exists done, in_batch s = done ++ todo s /\
                 resolved s = completed s ++ done;
  inv_batches : concat (batches s) = completed s ++ in_batch s;
  (** outside the critical sections the counter tells whether the done
      queue holds anything *)
  inv_count :
    mDoneCount s = if Queue.IsEmpty (mDoneQueue s) then 0 else 1;
  inv_buf : Z.of_nat (length (mNameBuf s)) = mNameBuf_size;
  (** no wakeup is lost: the worker only sleeps on an empty queue *)
  inv_wait : worker s = WWaiting -> mQueue s = [];
  inv_life : lifecycle s = true
}.

(** ** Running the system *)

(** The step relation as a function of the label. *)
Definition fire (l : Label) (s : State) : option State :=
  match l with
  | LStart => if joining s then None else Some (snd (Start s))
  | LShutdown => Some (Shutdown_locked s)
  | LJoin =>
      if joining s then
        match worker s with
        | WExited => Some (Shutdown_joined s)
        | _ => None
        end
      else None
  | LEnqueue r => Some (snd (Enqueue r s))
  | LRun => Run_step s
  | LSpurious =>
      match worker s with
      | WWaiting => Some (set_worker WReady s)
      | _ => None
      end
  | LTimeout => Timeout_step s
  end.

Fixpoint run (ls : list Label) (s : State) : option State :=
  match ls with
  | [] => Some s
  | l :: ls' =>
      match fire l s with
      | Some s1 => run ls' s1
      | None => None
      end
  end.

(** An infinite execution: the state at every instant and the label of
    the step taken from it. *)
Definition execution (e : nat -> State) (sched : nat -> Label) : Prop :=
  well_constructed (e 0%nat) /\
  forall n, step (e n) (sched n) (e (S n)).

(** The worker thread is scheduled fairly: it is never runnable forever
    without running. *)
Definition worker_fair (e : nat -> State) (sched : nat -> Label) : Prop :=
  forall n, exists m, (n <= m)%nat /\
    (sched m = LRun \/ Run_step (e m) = None).

(** The same for the event loop: [Timeout] is not callable forever
    without being called.  It is not callable while the handler is not
    registered. *)
Definition dispatcher_fair (e : nat -> State) (sched : nat -> Label) : Prop :=
  forall n, exists m, (n <= m)%nat /\
    (sched m = LTimeout \/ Timeout_step (e m) = None).

(** The event loop keeps running [Timeout]. *)
Definition dispatcher_runs (sched : nat -> Label) : Prop :=
  forall n, exists m, (n <= m)%nat /\ sched m = LTimeout.

(** *** Distances to progress *)

(** Steps of the worker until the pending queue is spliced next. *)
Definition to_splice (s : State) : nat :=
  match worker s with
  | WReady => 1
  | WProc _ thePtr => length thePtr + 2
  | _ => 0
  end.

(** Steps of the worker until its batch is in the done queue. *)
Definition to_finish (s : State) : nat := S (length (todo s)).

(** Steps of the event loop until [k] callbacks have been made, once the
    first [k] requests have left the worker. *)
Definition to_deliver (k : nat) (s : State) : nat :=
  (k - length (delivered s)) +
  (if (k <=? length (delivered s) + length (in_delivery s))%nat then 0
   else match dispatcher s with
        | DIdle => 2
        | DChecked => 1
        | DDeliver _ => 3
        end).

End Engine.

(** ** Vocabulary for the claims about the engine *)

(** [a] comes before [b] in [l]. *)
Definition precedes (a b : ReqId) (l : list ReqId) : Prop :=
  exists l1 l2 l3, l = l1 ++ a :: l2 ++ b :: l3.

(** [l'] continues [l]. *)
Definition extends (l l' : list ReqId) : Prop := exists x, l' = l ++ x.

(** The labels of the worker's steps and of the event loop's steps. *)
Definition is_run (l : Label) : bool :=
  match l with LRun => true | _ => false end.
Definition is_timeout (l : Label) : bool :=
  match l with LTimeout => true | _ => false end.

(** Two states that differ at most in the pending queue, the log of
    accepted requests, the worker's sleep and the count of notifications. *)
Definition same_elsewhere (s s' : State) : Prop :=
  mDoneQueue s' = mDoneQueue s /\ mRunFlag s' = mRunFlag s /\
  mDoneCount s' = mDoneCount s /\ mNameBuf s' = mNameBuf s /\
  dispatcher s' = dispatcher s /\ registered s' = registered s /\
  joining s' = joining s /\ requests s' = requests s /\
  batches s' = batches s /\ resolved s' = resolved s /\
  delivered s' = delivered s /\ wakeups s' = wakeups s.

(** ** A concrete backend and concrete requests, to run the model on *)

Definition EAI_NONAME : Z := -2.
Definition EAI_FAMILY : Z := -6.

Definition sa_loopback4 : sockaddr := [127; 0; 0; 1].
Definition sa_loopback6 : sockaddr :=
  [0; 0; 0; 0; 0; 0; 0; 0; 0; 0; 0; 0; 0; 0; 0; 1].

Definition c_text (s : string) : list ascii := list_ascii_of_string s ++ [NUL].

(** "localhost" has an IPv6 and an IPv4 address and an entry of a family
    the resolver skips; "badaddr" has one IPv4 entry that cannot be
    formatted; every other name is unknown. *)
Definition demo_backend : Backend :=
  mkBackend
    (fun host _ =>
       if String.eqb host "localhost" then
         (0, [mkAddrInfo 0 AF_INET6 SOCK_STREAM 6 28 sa_loopback6;
              mkAddrInfo 0 1 SOCK_STREAM 0 110 [];
              mkAddrInfo 0 AF_INET SOCK_STREAM 6 16 sa_loopback4])
       else if String.eqb host "badaddr" then
         (0, [mkAddrInfo 0 AF_INET SOCK_STREAM 6 3 [1; 2; 3]])
       else (EAI_NONAME, []))
    (fun sa _ _ _ =>
       match sa with
       | [127; 0; 0; 1] => (0, c_text "127.0.0.1")
       | [0; 0; 0; 0; 0; 0; 0; 0; 0; 0; 0; 0; 0; 0; 0; 1] => (0, c_text "::1")
       | _ => (EAI_FAMILY, [])
       end)
    (fun code =>
       if code =? EAI_NONAME then "Name or service not known"%string
       else if code =? EAI_FAMILY then "ai_family not supported"%string
       else "Unknown error"%string).

Definition host_request (host : string) : Request :=
  mkRequest host ["stale"%string] 0 "stale"%string.

(** Request 7 asks for "localhost", request 8 for "badaddr", the others
    for a name that does not exist. *)
Definition demo_requests : ReqId -> Request :=
  fun r => if Nat.eqb r 7 then host_request "localhost"
           else if Nat.eqb r 8 then host_request "badaddr"
           else host_request "no.such.host.invalid".

(** The uninitialised name buffer. *)
Definition demo_buf : list ascii :=
  repeat "x"%char (Z.to_nat mNameBuf_size).

Definition demo_init : State := construct demo_requests demo_buf.

(** The state after the labels [ls], from the constructed object. *)
Definition after (ls : list Label) : State :=
  match run demo_backend ls demo_init with
  | Some s => s
  | None => demo_init
  end.

(** *** Concrete runs *)

(** One request is accepted, then the facade is shut down: the worker
    resolves the request and exits, the shutdown joins it. *)
Definition stopped_trace : list Label :=
  [LStart; LEnqueue 7; LShutdown; LRun; LRun; LRun; LJoin].
Definition stopped_exec (n : nat) : State := after (firstn n stopped_trace).
Definition stopped_sched (n : nat) : Label := nth n stopped_trace LShutdown.

(** One request is accepted, resolved and called back on a facade that
    stays up; afterwards the event loop polls. *)
Definition live_trace : list Label :=
  [LStart; LEnqueue 7; LRun; LRun; LRun;
   LTimeout; LTimeout; LTimeout; LTimeout].
Definition live_exec (n : nat) : State := after (firstn n live_trace).
Definition live_sched (n : nat) : Label := nth n live_trace LTimeout.

(** A request is pending, never spliced, when the flag is cleared; the
    worker runs until it exits. *)
Definition s_pending : State := after [LStart; LEnqueue 7].
Definition s_drained : State :=
  after [LStart; LEnqueue 7; LShutdown; LRun; LRun; LRun].

(** The shutdown then joins the worker; the facade is started again and
    the event loop runs [Timeout]. *)
Definition s_restarted : State :=
  after [LStart; LEnqueue 7; LShutdown; LRun; LRun; LRun; LJoin;
         LStart; LTimeout; LTimeout; LTimeout].

(** The worker sleeps, a shutdown wakes it, it splices an empty batch. *)
Definition s_empty_batch : State := after [LStart; LRun; LShutdown; LRun].
Definition s_empty_batch_done : State :=
  after [LStart; LRun; LShutdown; LRun; LRun].

(** The worker is at the end of a batch of one request. *)
Definition s_batch_end : State := after [LStart; LEnqueue 7; LRun; LRun].
Definition s_batch_done : State :=
  after [LStart; LEnqueue 7; LRun; LRun; LRun].

(** Two requests went through the engine in one batch. *)
Definition s_two_done : State :=
  after [LStart; LRun; LEnqueue 7; LEnqueue 9; LRun; LRun; LRun; LRun;
         LTimeout; LTimeout; LTimeout; LTimeout; LTimeout].

(** The worker has exited and is about to be joined. *)
Definition s_exited : State := after [LStart; LShutdown; LRun; LRun].

Definition localhost_entries : list addrinfo :=
  snd (getaddrinfo demo_backend "localhost" mAddrInfoHints).

(** ** Vocabulary for further facts *)

(** What the loop of [Process] does to the outside world for one entry. *)
Definition entry_effects (B : Backend) (e : addrinfo) : list Effect :=
  if supported e then
    EGetNameInfo e INET6_ADDRSTRLEN ni_flags ::
    (if fmt_ok B e then [ENameBufStore INET6_ADDRSTRLEN] else [])
  else [].

Definition is_free (ev : Effect) : bool :=
  match ev with EFreeAddrInfo _ => true | _ => false end.

Definition formatted_entry (ev : Effect) : option addrinfo :=
  match ev with EGetNameInfo e _ _ => Some e | _ => None end.

(** The entries handed to the formatting call, in the order of the calls. *)
Fixpoint formatting_calls (eff : list Effect) : list addrinfo :=
  match eff with
  | [] => []
  | ev :: rest =>
      match formatted_entry ev with
      | Some e => e :: formatting_calls rest
      | None => formatting_calls rest
      end
  end.

(** What a request carries once [Process] has run on it: addresses only
    with status 0, and the message that goes with the status. *)
Definition result_consistent (B : Backend) (r : Request) : Prop :=
  (mStatus r <> 0 -> mIpAddresses r = []) /\
  mStatusMsg r =
    (if mStatus r =? 0 then EmptyString else gai_strerror B (mStatus r)).

(** The batches spliced so far that held a request. *)
Definition nonempty_batches (s : State) : nat :=
  length (filter (fun b => negb (Queue.IsEmpty b)) (batches s)).

(** Steps of the worker until it leaves [Run], once the flag is cleared. *)
Definition to_exit (s : State) : nat :=
  match worker s with
  | WReady => length (mQueue s) + 2
  | WProc _ thePtr =>
      length thePtr + 1 +
      (if Queue.IsEmpty (mQueue s) then 0 else length (mQueue s) + 1)
  | _ => 0
  end.

(** The caller of [Shutdown] is no longer held up: the worker has left
    [Run], or has already been joined. *)
Definition released (s : State) : Prop :=
  worker s = WExited \/ joining s = false.

(** A backend whose lookups succeed with one entry of a family the
    resolver skips. *)
Definition unix_only_backend : Backend :=
  mkBackend (fun _ _ => (0, [mkAddrInfo 0 1 SOCK_STREAM 0 110 []]))
    (getnameinfo demo_backend) (gai_strerror demo_backend).

(** The name buffer after a previous use. *)
Definition used_buf : list ascii :=
  repeat NUL (Z.to_nat mNameBuf_size).

(** The worker sleeps on the empty pending queue of a running facade. *)
Definition s_sleeping : State := after [LStart; LRun].

(** A request is pending and the worker is about to take the mutex. *)
Definition s_two_pending : State :=
  after [LStart; LRun; LEnqueue 7; LEnqueue 9].

(** Two requests are in the done queue and the event loop is idle. *)
Definition s_two_resolved : State :=
  after [LStart; LRun; LEnqueue 7; LEnqueue 9; LRun; LRun; LRun; LRun].

(** ** Proof automation *)

(** Split the invariant into its parts, with the vocabulary unfolded. *)
Ltac split_inv :=
  constructor; unfold completed, in_batch, todo, in_delivery, lifecycle; cbn.

(** Equations between concatenations, up to associativity. *)
Ltac lists :=
  repeat first [rewrite <- app_assoc | progress cbn [app]];
  rewrite ?app_nil_r; try reflexivity.

(** Arithmetic over lengths of queues. *)
Ltac arith := unfold Queue.t, ReqId in *; lia.

(** Inequalities between lengths of concatenations. *)
Ltac lens :=
  rewrite ?app_nil_r in *; rewrite ?length_app in *; cbn [length app] in *;
  rewrite ?length_app in *; cbn [length] in *; try lia.

(** * Facts about [Process] *)

Lemma theSize_of_const family : theSize_of family = INET6_ADDRSTRLEN.
Proof. unfold theSize_of. destruct (family =? AF_INET); reflexivity. Qed.

Lemma mNameBuf_size_val : mNameBuf_size = INET6_ADDRSTRLEN + 1.
Proof. reflexivity. Qed.

Lemma blit_length src dst :
  (length src <= length dst)%nat -> length (blit src dst) = length dst.
Proof.
  intros H. unfold blit. rewrite length_app, length_skipn. lia.
Qed.

Lemma store_in_bounds i c buf :
  0 <= i < Z.of_nat (length buf) ->
  exists buf', store i c buf = Some buf' /\ length buf' = length buf.
Proof.
  intros [H0 H1]. unfold store.
  rewrite (proj2 (Z.leb_le 0 i) H0), (proj2 (Z.ltb_lt _ _) H1).
  cbn [andb]. eexists. split; [reflexivity|].
  rewrite length_app, length_firstn. cbn [length].
  rewrite length_skipn. lia.
Qed.

Lemma store_some_inv i c buf buf' :
  store i c buf = Some buf' ->
  0 <= i < Z.of_nat (length buf) /\
  buf' = firstn (Z.to_nat i) buf ++ c :: skipn (S (Z.to_nat i)) buf.
Proof.
  unfold store. destruct (0 <=? i) eqn:E0; simpl; [|discriminate].
  destruct (i <? Z.of_nat (length buf)) eqn:E1; [|discriminate].
  intros [= <-]. apply Z.leb_le in E0. apply Z.ltb_lt in E1. auto.
Qed.

Lemma c_str_app_nul a x : In NUL a -> c_str (a ++ x) = c_str a.
Proof.
  induction a as [|c a IH]; simpl; [tauto|].
  intros [->|H].
  - reflexivity.
  - destruct (Ascii.eqb c NUL); [reflexivity|]. now rewrite IH.
Qed.

(** With the text terminated inside the bytes that were copied, neither the
    previous contents of the buffer nor the extra NUL change what is read
    back. *)
Lemma c_str_after_store n out buf buf2 :
  In NUL (firstn n out) ->
  store (Z.of_nat n) NUL (blit (firstn n out) buf) = Some buf2 ->
  c_str buf2 = c_str out.
Proof.
  intros Hnul Hst. apply store_some_inv in Hst as [_ ->].
  rewrite Nat2Z.id. unfold blit.
  set (a := firstn n out) in *.
  assert (Ha : (length a <= n)%nat) by (subst a; apply firstn_le_length).
  rewrite firstn_app.
  rewrite (firstn_all2 a Ha).
  rewrite <- app_assoc, c_str_app_nul by exact Hnul.
  transitivity (c_str (a ++ skipn n out)).
  - now rewrite c_str_app_nul.
  - subst a. now rewrite firstn_skipn.
Qed.

Lemma last_indep {A} (l : list A) a d d' : last (a :: l) d = last (a :: l) d'.
Proof.
  revert a. induction l as [|b l IH]; intros a; [reflexivity|].
  change (last (b :: l) d = last (b :: l) d'). apply IH.
Qed.

Lemma last_cons_shift {A} (l : list A) a d : last (a :: l) d = last l a.
Proof.
  destruct l as [|b l]; [reflexivity|].
  change (last (b :: l) d = last (b :: l) a). apply last_indep.
Qed.

Section ResolutionFacts.

Variable B : Backend.

Lemma format_errors_nonzero entries d :
  d <> 0 \/ format_errors B entries <> [] ->
  last (format_errors B entries) d <> 0.
Proof.
  unfold format_errors.
  set (l := map _ _). clearbody l. revert d.
  induction l as [|c l IH]; cbn [filter]; intros d H.
  - destruct H; simpl; congruence.
  - destruct (c =? 0) eqn:E; cbn [negb] in *.
    + apply IH. exact H.
    + rewrite last_cons_shift. apply IH. left. now apply Z.eqb_neq.
Qed.

Lemma format_entries_cons e rest st :
  format_entries B (e :: rest) st =
  if supported e then
    let buf1 := blit (firstn (Z.to_nat INET6_ADDRSTRLEN) (snd (fmt_call B e)))
                  (nameBuf st) in
    let eff1 := effects st ++ [EGetNameInfo e INET6_ADDRSTRLEN ni_flags] in
    if fmt_ok B e then
      match store INET6_ADDRSTRLEN NUL buf1 with
      | None => None
      | Some buf2 =>
          format_entries B rest
            (mkLocals buf2 (ipAddresses st ++ [c_str buf2]) (theErr st)
               (eff1 ++ [ENameBufStore INET6_ADDRSTRLEN]))
      end
    else format_entries B rest
           (mkLocals buf1 (ipAddresses st) (fst (fmt_call B e)) eff1)
  else format_entries B rest st.
Proof.
  cbn [format_entries]. rewrite theSize_of_const.
  unfold supported, fmt_ok, fmt_call.
  rewrite (Z.eqb_sym AF_INET), (Z.eqb_sym AF_INET6).
  destruct (ai_family e =? AF_INET), (ai_family e =? AF_INET6);
    cbn [negb andb orb];
    destruct (getnameinfo B (ai_addr e) (ai_addrlen e) INET6_ADDRSTRLEN ni_flags)
      as [theStatus out];
    cbn [fst snd]; rewrite ?(Z.eqb_sym 0 theStatus);
    destruct (theStatus =? 0); reflexivity.
Qed.

Lemma format_entries_spec entries : forall st,
  Z.of_nat (length (nameBuf st)) = mNameBuf_size ->
  exists st',
    format_entries B entries st = Some st' /\
    Z.of_nat (length (nameBuf st')) = mNameBuf_size /\
    theErr st' = last (format_errors B entries) (theErr st) /\
    length (ipAddresses st') =
      (length (ipAddresses st) + length (formatted B entries))%nat /\
    ((forall e, In e entries -> terminates_text B e) ->
     ipAddresses st' = ipAddresses st ++ map (fmt_text B) (formatted B entries)) /\
    exists eff, effects st' = effects st ++ eff /\ Forall sized eff.
Proof.
  induction entries as [|e entries IH]; intros st Hlen.
  - exists st. cbn. rewrite Nat.add_0_r, !app_nil_r.
    repeat split; auto. exists []. rewrite app_nil_r. auto.
  - rewrite format_entries_cons.
    unfold format_errors, formatted in *. cbn [filter].
    destruct (supported e) eqn:Es.
    2:{ destruct (IH st Hlen) as (st' & H1 & H2 & H3 & H4 & H5 & H6).
        exists st'. repeat split; auto.
        intros Hc. apply H5. intros; apply Hc; now right. }
    cbn [map filter]. cbv zeta.
    set (out := snd (fmt_call B e)).
    set (buf1 := blit (firstn (Z.to_nat INET6_ADDRSTRLEN) out) (nameBuf st)).
    assert (Hlen1 : length buf1 = length (nameBuf st)).
    { apply blit_length. rewrite length_firstn.
      rewrite mNameBuf_size_val in Hlen.
      assert (Z.to_nat INET6_ADDRSTRLEN = 46%nat) by reflexivity.
      unfold INET6_ADDRSTRLEN in Hlen. lia. }
    destruct (fmt_ok B e) eqn:Eok.
    + (* formatted *)
      assert (Est : (fst (fmt_call B e) =? 0) = true) by exact Eok.
      rewrite Est. cbn [negb].
      destruct (store_in_bounds INET6_ADDRSTRLEN NUL buf1) as (buf2 & Hst & Hlen2).
      { rewrite Hlen1, Hlen, mNameBuf_size_val. unfold INET6_ADDRSTRLEN. lia. }
      rewrite Hst.
      edestruct (IH (mkLocals buf2 (ipAddresses st ++ [c_str buf2]) (theErr st)
                      ((effects st ++ [EGetNameInfo e INET6_ADDRSTRLEN ni_flags])
                         ++ [ENameBufStore INET6_ADDRSTRLEN])))
        as (st' & H1 & H2 & H3 & H4 & H5 & eff & H6 & H7).
      { cbn [nameBuf]. now rewrite Hlen2, Hlen1. }
      exists st'. cbn [nameBuf ipAddresses theErr effects] in *.
      repeat split; auto.
      * rewrite H4, length_app. cbn [length]. lia.
      * intros Hc. rewrite H5 by (intros; apply Hc; now right).
        rewrite <- app_assoc. cbn [app map]. do 3 f_equal.
        unfold fmt_text. fold out.
        apply (c_str_after_store (Z.to_nat INET6_ADDRSTRLEN) out (nameBuf st)).
        -- apply (Hc e (or_introl eq_refl)). exact Eok.
        -- rewrite Z2Nat.id by (unfold INET6_ADDRSTRLEN; lia). exact Hst.
      * exists (EGetNameInfo e INET6_ADDRSTRLEN ni_flags
                :: ENameBufStore INET6_ADDRSTRLEN :: eff).
        split.
        -- rewrite H6, <- !app_assoc. reflexivity.
        -- repeat constructor; auto; unfold INET6_ADDRSTRLEN, mNameBuf_size; cbn; lia.
    + (* a formatting error is recorded *)
      assert (Est : (fst (fmt_call B e) =? 0) = false) by exact Eok.
      rewrite Est. cbn [negb].
      edestruct (IH (mkLocals buf1 (ipAddresses st) (fst (fmt_call B e))
                      (effects st ++ [EGetNameInfo e INET6_ADDRSTRLEN ni_flags])))
        as (st' & H1 & H2 & H3 & H4 & H5 & eff & H6 & H7).
      { cbn [nameBuf]. now rewrite Hlen1. }
      exists st'. cbn [nameBuf ipAddresses theErr effects] in *.
      repeat split; auto.
      * rewrite last_cons_shift. exact H3.
      * intros Hc. apply H5. intros; apply Hc; now right.
      * exists (EGetNameInfo e INET6_ADDRSTRLEN ni_flags :: eff). split.
        -- rewrite H6, <- app_assoc. reflexivity.
        -- constructor; cbn; auto.
Qed.

(** [Process] after a successful lookup, in one piece. *)
Lemma Process_lookup_ok buf inReq entries :
  getaddrinfo B (mHostName inReq) mAddrInfoHints = (0, entries) ->
  Process B buf inReq =
  match format_entries B entries
          (mkLocals buf [] 0 [EGetAddrInfo (mHostName inReq) mAddrInfoHints]) with
  | None => None
  | Some l =>
      let failed :=
        match ipAddresses l with [] => negb (theErr l =? 0) | _ => false end in
      Some (nameBuf l,
            mkRequest (mHostName inReq) (ipAddresses l)
              (if failed then theErr l else 0)
              (if failed then gai_strerror B (theErr l) else EmptyString),
            effects l ++ [EFreeAddrInfo entries])
  end.
Proof.
  intros H. unfold Process. rewrite H. cbn.
  destruct (format_entries B entries _) as [l|]; [|reflexivity].
  destruct (ipAddresses l); destruct (theErr l); reflexivity.
Qed.

Lemma Process_on_lookup_error buf inReq code res :
  getaddrinfo B (mHostName inReq) mAddrInfoHints = (code, res) ->
  code <> 0 ->
  Process B buf inReq =
  Some (buf,
        mkRequest (mHostName inReq) [] code (gai_strerror B code),
        EGetAddrInfo (mHostName inReq) mAddrInfoHints ::
        match res with [] => [] | _ :: _ => [EFreeAddrInfo res] end).
Proof.
  intros H Hc. unfold Process. rewrite H.
  cbn [set_mStatus set_mIpAddresses mStatus].
  rewrite (Z.eqb_sym 0 code), (proj2 (Z.eqb_neq code 0) Hc). reflexivity.
Qed.

(** C6: when the name lookup fails, [Process] stores the backend's code
    and its description in the request, leaves the address list empty,
    frees the result chain if the backend handed one out, and does
    nothing else: no formatting call is made and the name buffer is left
    as it was. *)
Theorem Process_lookup_failure buf inReq code res :
  getaddrinfo B (mHostName inReq) mAddrInfoHints = (code, res) ->
  code <> 0 ->
  Process B buf inReq =
  Some (buf,
        mkRequest (mHostName inReq) [] code (gai_strerror B code),
        EGetAddrInfo (mHostName inReq) mAddrInfoHints ::
        match res with [] => [] | _ :: _ => [EFreeAddrInfo res] end).
Proof. exact (Process_on_lookup_error buf inReq code res). Qed.

(** C3: after a successful lookup [Process] returns; the addresses it
    leaves are those of the entries that were formatted, one for each and
    in their order (their text, when the backend terminates what it
    writes); if there is none and a formatting error was recorded, status
    and message are those of the last recorded error; in every other case
    the status is 0 and the message is empty. *)
Theorem Process_partial_failure buf inReq entries :
  Z.of_nat (length buf) = mNameBuf_size ->
  getaddrinfo B (mHostName inReq) mAddrInfoHints = (0, entries) ->
  exists buf' req' eff,
    Process B buf inReq = Some (buf', req', eff) /\
    length (mIpAddresses req') = length (formatted B entries) /\
    ((forall e, In e entries -> terminates_text B e) ->
     mIpAddresses req' = map (fmt_text B) (formatted B entries)) /\
    (mIpAddresses req' = [] -> format_errors B entries <> [] ->
     mStatus req' = last (format_errors B entries) 0 /\
     mStatusMsg req' = gai_strerror B (last (format_errors B entries) 0)) /\
    (~ (mIpAddresses req' = [] /\ format_errors B entries <> []) ->
     mStatus req' = 0 /\ mStatusMsg req' = EmptyString).
Proof.
  intros Hlen Hga. rewrite (Process_lookup_ok _ _ _ Hga).
  destruct (format_entries_spec entries
              (mkLocals buf [] 0 [EGetAddrInfo (mHostName inReq) mAddrInfoHints]) Hlen)
    as (l & -> & _ & Herr & Hn & Htxt & _).
  cbn [ipAddresses theErr] in Herr, Hn, Htxt.
  do 3 eexists. split; [reflexivity|]. cbn [mIpAddresses mStatus mStatusMsg].
  split; [exact Hn|]. split; [exact Htxt|].
  destruct (ipAddresses l) as [|a ips] eqn:Eips.
  - destruct (theErr l =? 0) eqn:E0; cbn [negb].
    + apply Z.eqb_eq in E0. split.
      * intros _ Hne. exfalso.
        apply (format_errors_nonzero entries 0 (or_intror Hne)). congruence.
      * auto.
    + split.
      * intros _ _. now rewrite Herr.
      * intros Hn'. exfalso. apply Hn'. split; [reflexivity|].
        intros Hnil. rewrite Hnil in Herr. cbn in Herr.
        apply Z.eqb_neq in E0. auto.
  - split; [discriminate|auto].
Qed.

(** C9: [Process] returns, and afterwards a nonzero status comes with an
    empty address list (so a non-empty list comes with status 0); what the
    address list held before the call has no influence on the result. *)
Theorem Process_status_addresses buf inReq :
  Z.of_nat (length buf) = mNameBuf_size ->
  exists buf' req' eff,
    Process B buf inReq = Some (buf', req', eff) /\
    (mStatus req' <> 0 -> mIpAddresses req' = []) /\
    (mIpAddresses req' <> [] -> mStatus req' = 0) /\
    (forall stale,
       Process B buf (set_mIpAddresses stale inReq) = Some (buf', req', eff)).
Proof.
  intros Hlen.
  destruct (getaddrinfo B (mHostName inReq) mAddrInfoHints) as [code res] eqn:Hga.
  destruct (Z.eq_dec code 0) as [->|Hc].
  - assert (Hst : forall stale,
              Process B buf (set_mIpAddresses stale inReq) = Process B buf inReq).
    { intros stale. rewrite !(Process_lookup_ok _ _ res); auto. }
    rewrite (Process_lookup_ok _ _ _ Hga) in *.
    destruct (format_entries_spec res
                (mkLocals buf [] 0 [EGetAddrInfo (mHostName inReq) mAddrInfoHints]) Hlen)
      as (l & Hl & _).
    rewrite Hl in *. do 3 eexists. split; [reflexivity|].
    cbn [mIpAddresses mStatus]. repeat split.
    + destruct (ipAddresses l); [reflexivity|]. intros H; now elim H.
    + destruct (ipAddresses l); [intros H; now elim H|reflexivity].
    + exact Hst.
  - do 3 eexists. split; [apply (Process_on_lookup_error _ _ _ _ Hga Hc)|].
    cbn [mIpAddresses mStatus]. repeat split.
    + intros H; now elim H.
    + intros stale. now rewrite (Process_on_lookup_error _ _ code res).
Qed.

(** [Process] returns on a buffer of the declared size and keeps it at
    that size. *)
Lemma Process_returns buf inReq :
  Z.of_nat (length buf) = mNameBuf_size ->
  exists buf' req' eff,
    Process B buf inReq = Some (buf', req', eff) /\
    Z.of_nat (length buf') = mNameBuf_size /\
    Forall sized eff.
Proof.
  intros Hlen.
  destruct (getaddrinfo B (mHostName inReq) mAddrInfoHints) as [code res] eqn:Hga.
  destruct (Z.eq_dec code 0) as [->|Hc].
  - rewrite (Process_lookup_ok _ _ _ Hga).
    destruct (format_entries_spec res
                (mkLocals buf [] 0 [EGetAddrInfo (mHostName inReq) mAddrInfoHints]) Hlen)
      as (l & -> & Hl & _ & _ & _ & eff & He & Hs).
    do 3 eexists. split; [reflexivity|]. split; [exact Hl|].
    rewrite He. cbn [effects]. rewrite <- app_assoc.
    constructor; [exact I|]. apply Forall_app. split; [exact Hs|].
    constructor; [exact I|constructor].
  - rewrite (Process_on_lookup_error _ _ _ _ Hga Hc).
    do 3 eexists. split; [reflexivity|]. split; [exact Hlen|].
    constructor; [exact I|]. destruct res; repeat constructor.
Qed.

(** C10: whatever the family, the size computed for the formatting call is
    [INET6_ADDRSTRLEN]; the name buffer has [INET6_ADDRSTRLEN + 1] bytes,
    so a store at that index lies inside it; and on such a buffer
    [Process] returns (no store falls outside), leaves the buffer at its
    size, and every formatting call and every NUL store it made used that
    value. *)
Theorem Process_name_buffer_bounds :
  (forall family, theSize_of family = INET6_ADDRSTRLEN) /\
  mNameBuf_size = INET6_ADDRSTRLEN + 1 /\
  (forall buf c, Z.of_nat (length buf) = mNameBuf_size ->
     forall family, store (theSize_of family) c buf <> None) /\
  (forall buf inReq, Z.of_nat (length buf) = mNameBuf_size ->
     exists buf' req' eff,
       Process B buf inReq = Some (buf', req', eff) /\
       Z.of_nat (length buf') = mNameBuf_size /\
       Forall sized eff).
Proof.
  split; [exact theSize_of_const|]. split; [reflexivity|]. split.
  - intros buf c Hlen family. rewrite theSize_of_const.
    destruct (store_in_bounds INET6_ADDRSTRLEN c buf) as (b & -> & _);
      [|discriminate].
    rewrite Hlen. unfold mNameBuf_size, INET6_ADDRSTRLEN. cbn. lia.
  - exact Process_returns.
Qed.

End ResolutionFacts.

(** * Facts about the engine *)

Section EngineFacts.

Variable B : Backend.

Lemma Inv_init s : well_constructed s -> Inv s.
Proof.
  intros (h & buf & Hlen & ->).
  split_inv; auto; try discriminate. exists []. auto.
Qed.

Lemma Inv_step s l s' : Inv s -> step B s l s' -> Inv s'.
Proof.
  intros [Hf (done & Hb & Hr) Hbt Hc Hbuf Hw Hl] Hs.
  destruct Hs as [s Hj | s | s Hj Hwk | s r | s s' Hrun | s Hwk | s s' Ht];
  destruct s as [q dq run cnt buf w d reg j h acc bat res del nt wk];
  unfold completed, in_batch, todo, in_delivery, lifecycle in *; cbn in *.
  - (* Start *)
    subst j. destruct run; cbn.
    + split_inv; auto. exists done; auto.
    + destruct w; try discriminate. destruct reg; try discriminate.
      destruct q; try discriminate.
      split_inv; auto; try discriminate. exists done; auto.
  - (* Shutdown *)
    destruct run; cbn.
    + destruct j; try discriminate.
      destruct w; try discriminate; cbn;
        (split_inv; auto; try discriminate; exists done; auto).
    + split_inv; auto. exists done; auto.
  - (* Join *)
    subst j w. destruct run; try discriminate.
    apply andb_prop in Hl as [-> Hq]. destruct q; try discriminate.
    split_inv; auto; try discriminate. exists done; auto.
  - (* Enqueue *)
    destruct run; cbn.
    2:{ split_inv; auto. exists done; auto. }
    destruct j; try discriminate.
    unfold Queue.PushBack.
    destruct q as [|x q]; cbn.
    + destruct w; try discriminate; cbn;
        (split_inv; auto; try discriminate;
         [ rewrite Hf; lists | exists done; auto ]).
    + destruct w; try discriminate; cbn;
        try (specialize (Hw eq_refl); discriminate);
        (split_inv; auto; try discriminate;
         [ rewrite Hf; lists | exists done; auto ]).
  - (* Run *)
    destruct w as [| | |tq ptr|]; try discriminate.
    + (* the head of the loop *)
      injection Hrun as <-. unfold Run_top; cbn.
      destruct done; try discriminate. cbn in Hb. rewrite app_nil_r in Hr.
      destruct run; cbn; destruct q as [|x q]; cbn;
        destruct j; try discriminate;
        (split_inv; auto; try discriminate;
         try solve [ rewrite Hf; lists
                   | exists []; split; [reflexivity|rewrite Hr; lists]
                   | rewrite concat_app, Hbt; cbn; lists ]).
    + destruct ptr as [|r next].
      * (* the end of the batch *)
        injection Hrun as <-. rewrite app_nil_r in Hb. subst done.
        unfold Run_finish, Run_top, SyncAddAndFetch.
        destruct tq as [|t tq], dq as [|x dq], run, j, q as [|y q], reg;
          try discriminate; cbn in *; subst cnt;
          (split_inv; auto; try discriminate;
           try solve [ rewrite Hf; lists
                     | exists []; split; [reflexivity|rewrite Hr; lists]
                     | rewrite ?concat_app, Hbt; cbn; lists ]).
      * (* one request *)
        unfold Run_step in Hrun; cbn [worker mNameBuf requests] in Hrun.
        destruct (Process_returns B buf (h r) Hbuf) as (b' & r' & e' & HP & Hb' & _).
        rewrite HP in Hrun. injection Hrun as <-.
        destruct run, j; try discriminate;
        (split_inv; auto; try discriminate;
         exists (done ++ [r]); split;
         [ rewrite Hb; lists | rewrite Hr; lists ]).
  - (* spurious wakeup *)
    subst w. destruct run, j; try discriminate;
      (split_inv; auto; try discriminate; exists done; auto).
  - (* Timeout *)
    unfold Timeout_step in Ht. cbn -[Z.eqb] in Ht.
    destruct d as [| |ldq].
    + destruct reg; try discriminate.
      destruct (0 =? _); injection Ht as <-;
        (split_inv; auto; exists done; auto).
    + injection Ht as <-.
      split_inv; auto; try solve [rewrite ?Hf, ?Hbt; lists].
      exists done. split; auto. rewrite Hr. lists.
    + destruct ldq as [|x ldq]; injection Ht as <-;
        (split_inv; auto; try solve [rewrite ?Hf, ?Hbt; lists];
         exists done; split; auto; rewrite Hr; lists).
Qed.

Lemma reachable_Inv s : reachable B s -> Inv s.
Proof.
  induction 1 as [s H|s l s' _ IH Hs].
  - now apply Inv_init.
  - exact (Inv_step _ _ _ IH Hs).
Qed.

Lemma fire_step l s s' : fire B l s = Some s' -> step B s l s'.
Proof.
  destruct l; cbn [fire].
  - destruct (joining s) eqn:E; [discriminate|]. intros [= <-]. now constructor.
  - intros [= <-]. constructor.
  - destruct (joining s) eqn:E; [|discriminate].
    destruct (worker s) eqn:Ew; try discriminate. intros [= <-]. now constructor.
  - intros [= <-]. constructor.
  - now constructor.
  - destruct (worker s) eqn:Ew; try discriminate. intros [= <-]. now constructor.
  - now constructor.
Qed.

Lemma run_steps ls : forall s s', run B ls s = Some s' -> steps B s ls s'.
Proof.
  induction ls as [|l ls IH]; cbn [run]; intros s s' H.
  - injection H as <-. constructor.
  - destruct (fire B l s) as [s1|] eqn:E; [|discriminate].
    econstructor; [apply fire_step; exact E|now apply IH].
Qed.

Lemma steps_reachable s ls s' : steps B s ls s' -> reachable B s -> reachable B s'.
Proof.
  induction 1 as [|s l s1 ls s2 H _ IH]; [auto|].
  intros Hr. apply IH. exact (reach_step _ _ _ _ Hr H).
Qed.

Lemma run_reachable ls s s' :
  well_constructed s -> run B ls s = Some s' -> reachable B s'.
Proof.
  intros Hs H. eapply steps_reachable; [apply run_steps; exact H|].
  now constructor.
Qed.

(** *** The logs only grow *)

Lemma extends_refl l : extends l l.
Proof. exists []. now rewrite app_nil_r. Qed.

Lemma extends_trans l1 l2 l3 : extends l1 l2 -> extends l2 l3 -> extends l1 l3.
Proof. intros [x ->] [y ->]. exists (x ++ y). now rewrite app_assoc. Qed.

Lemma extends_snoc l a : extends l (l ++ [a]).
Proof. now exists [a]. Qed.

Lemma extends_In l l' r : extends l l' -> In r l -> In r l'.
Proof. intros [x ->] H. apply in_or_app. now left. Qed.

Lemma extends_length l l' : extends l l' -> (length l <= length l')%nat.
Proof. intros [x ->]. rewrite length_app. lia. Qed.

Lemma step_logs s l s' :
  step B s l s' ->
  extends (accepted s) (accepted s') /\
  extends (resolved s) (resolved s') /\
  extends (delivered s) (delivered s').
Proof.
  intros Hs.
  destruct Hs as [s Hj | s | s Hj Hwk | s r | s s' Hrun | s Hwk | s s' Ht];
    destruct s as [q dq run cnt buf w d reg j h acc bat res del nt wk];
    cbn in *.
  - destruct run; cbn; auto using extends_refl.
  - destruct run, w; cbn; auto using extends_refl.
  - auto using extends_refl.
  - destruct run, q, w; cbn; auto using extends_refl, extends_snoc.
  - destruct w as [| | |tq [|r next]|]; try discriminate.
    + injection Hrun as <-. unfold Run_top.
      destruct run, q; cbn; auto using extends_refl.
    + injection Hrun as <-. unfold Run_finish, Run_top.
      destruct tq, dq, run, q; cbn; auto using extends_refl.
    + unfold Run_step in Hrun. cbn [worker mNameBuf requests] in Hrun.
      destruct (Process B buf (h r)) as [[[b' r'] e']|]; [|discriminate].
      injection Hrun as <-. cbn; auto using extends_refl, extends_snoc.
  - auto using extends_refl.
  - unfold Timeout_step in Ht. cbn -[Z.eqb] in Ht.
    destruct d as [| |[|x ldq]].
    + destruct reg; [|discriminate].
      destruct (0 =? _); injection Ht as <-; cbn; auto using extends_refl.
    + injection Ht as <-. cbn; auto using extends_refl.
    + injection Ht as <-. cbn; auto using extends_refl.
    + injection Ht as <-. cbn; auto using extends_refl, extends_snoc.
Qed.

Lemma steps_logs s ls s' :
  steps B s ls s' ->
  extends (accepted s) (accepted s') /\
  extends (resolved s) (resolved s') /\
  extends (delivered s) (delivered s').
Proof.
  induction 1 as [s|s l s1 ls s2 H _ (IH1 & IH2 & IH3)].
  - auto using extends_refl.
  - destruct (step_logs _ _ _ H) as (H1 & H2 & H3).
    repeat split; eapply extends_trans; eassumption.
Qed.

(** When the worker is not in [Run], everything accepted so far has been
    resolved and has left the worker. *)
Lemma worker_gone_drained s :
  Inv s -> worker s = WExited \/ worker s = WNone ->
  mQueue s = [] /\ accepted s = completed s /\ resolved s = completed s.
Proof.
  intros [Hf (done & Hb & Hr) _ _ _ _ Hl] Hw.
  unfold lifecycle, in_batch, todo in *.
  assert (Hq : mQueue s = []).
  { destruct Hw as [Hw|Hw]; rewrite Hw in Hl;
      destruct (mRunFlag s), (joining s); try discriminate;
      apply andb_prop in Hl as [_ Hl]; destruct (mQueue s); auto; discriminate. }
  destruct Hw as [Hw|Hw]; rewrite Hw in *;
    destruct done; try discriminate;
    rewrite Hf, Hr, Hq, !app_nil_r; auto.
Qed.

(** *** Order inside a list *)

Lemma precedes_prefix a b p q :
  NoDup (p ++ q) -> precedes a b (p ++ q) -> In b p -> precedes a b p.
Proof.
  intros Hnd (l1 & l2 & l3 & Heq) Hb.
  assert (Hq : ~ In b q).
  { intros Hq. apply in_split in Hb as (p1 & p2 & ->).
    rewrite <- app_assoc in Hnd. cbn in Hnd.
    apply NoDup_remove_2 in Hnd. apply Hnd.
    rewrite app_assoc. apply in_or_app. now right. }
  change (p ++ q = l1 ++ (a :: l2) ++ b :: l3) in Heq.
  rewrite app_assoc in Heq.
  apply app_eq_app in Heq as (m & [[Hp Hm]|[Hp Hm]]).
  - destruct m as [|x m].
    + cbn in Hm. elim Hq. rewrite <- Hm. now left.
    + cbn in Hm. injection Hm as <- _. exists l1, l2, m.
      rewrite Hp, <- app_assoc. reflexivity.
  - elim Hq. rewrite Hm. apply in_or_app. right. now left.
Qed.

Lemma precedes_concat a b batch bs :
  In batch bs -> precedes a b batch -> precedes a b (concat bs).
Proof.
  intros Hin (l1 & l2 & l3 & ->).
  apply in_split in Hin as (b1 & b2 & ->).
  rewrite concat_app. cbn [concat].
  exists (concat b1 ++ l1), l2, (l3 ++ concat b2).
  rewrite <- !app_assoc. cbn. rewrite <- app_assoc. reflexivity.
Qed.

(** *** The claims about the public operations and the worker *)

(** C5: [Enqueue] on a facade that is not running returns [-EINVAL] and
    leaves the whole state as it was (so nothing is queued and nothing is
    signalled); on a running facade it returns 0, appends the request at
    the back of the pending queue, calls [Notify] (which readies a
    sleeping worker) when the pending queue was empty before the append
    and does not call it when it was not, and changes nothing else. *)
Theorem Enqueue_contract inRequest s :
  (mRunFlag s = false -> Enqueue inRequest s = (- EINVAL, s)) /\
  (mRunFlag s = true ->
   let s' := snd (Enqueue inRequest s) in
   fst (Enqueue inRequest s) = 0 /\
   mQueue s' = mQueue s ++ [inRequest] /\
   accepted s' = accepted s ++ [inRequest] /\
   (mQueue s = [] -> notifies s' = S (notifies s) /\
      worker s' = match worker s with WWaiting => WReady | w => w end) /\
   (mQueue s <> [] -> notifies s' = notifies s /\ worker s' = worker s) /\
   same_elsewhere s s').
Proof.
  destruct s as [q dq run cnt buf w d reg j h acc bat res del nt wk].
  unfold Enqueue, same_elsewhere, Notify, Queue.PushBack. cbn.
  split; intros ->; cbn; [reflexivity|].
  destruct q as [|x q]; cbn.
  - destruct w; cbn; repeat split; auto;
      match goal with H : [] <> [] |- _ => now elim H end.
  - repeat split; auto; discriminate.
Qed.

(** C8: [Start] returns [-EINVAL] exactly when the facade is running, and
    then changes nothing; otherwise it returns 0 and the facade is
    running, with the handler registered and the worker started; after a
    [Shutdown] that has joined the worker the facade is not running, so
    [Start] succeeds again. *)
Theorem Start_contract :
  (forall s, fst (Start s) = - EINVAL <-> mRunFlag s = true) /\
  (forall s, mRunFlag s = true -> snd (Start s) = s) /\
  (forall s, mRunFlag s = false ->
     fst (Start s) = 0 /\ mRunFlag (snd (Start s)) = true /\
     registered (snd (Start s)) = true /\ worker (snd (Start s)) = WReady) /\
  (forall s s', reachable B s -> step B s LJoin s' ->
     mRunFlag s' = false /\ fst (Start s') = 0 /\
     mRunFlag (snd (Start s')) = true).
Proof.
  unfold Start. split; [|split; [|split]].
  - intros s. destruct (mRunFlag s); cbn; split; auto; discriminate.
  - intros s ->. reflexivity.
  - intros s ->. cbn. auto.
  - intros s s' Hr Hs. apply reachable_Inv in Hr.
    assert (Hf : mRunFlag s' = false).
    { inversion Hs as [| |s0 Hj Hw| | | |]; subst.
      destruct Hr as [_ _ _ _ _ _ Hl]. unfold lifecycle in Hl.
      rewrite Hj, Hw in Hl. cbn.
      destruct (mRunFlag s); [discriminate|reflexivity]. }
    rewrite Hf. cbn. auto.
Qed.

(** C4 as amended: at the end of a batch the worker splices it into the
    done queue; it increments the done counter and wakes the event loop
    exactly when the batch is not empty and the done queue was empty just
    before the splice; in every other case, an empty batch included, the
    counter is left alone and no wakeup is issued. *)
Theorem Run_finish_wakeup s theQueue s' :
  reachable B s -> worker s = WProc theQueue [] -> Run_step B s = Some s' ->
  mDoneQueue s' = mDoneQueue s ++ theQueue /\
  (theQueue <> [] /\ mDoneQueue s = [] ->
   wakeups s' = S (wakeups s) /\ mDoneCount s' = mDoneCount s + 1) /\
  (~ (theQueue <> [] /\ mDoneQueue s = []) ->
   wakeups s' = wakeups s /\ mDoneCount s' = mDoneCount s).
Proof.
  intros Hr Hw Hs. apply reachable_Inv in Hr. destruct Hr as [_ _ _ Hc _ _ _].
  unfold Run_step in Hs. rewrite Hw in Hs. injection Hs as <-.
  destruct s as [q dq run cnt buf w d reg j h acc bat res del nt wk].
  cbn in Hc, Hw |- *. subst w.
  unfold Run_finish, Run_top, SyncAddAndFetch.
  destruct theQueue as [|t tq], dq as [|x dq]; cbn in Hc |- *; subst cnt;
    destruct run, q as [|y q]; cbn;
    (split; [reflexivity|split]); intros H; try tauto;
    try (exfalso; apply H; split; [discriminate|reflexivity]);
    try (destruct H as [H1 H2]; (now elim H1) || discriminate); auto.
Qed.

(** C7: requests are resolved in the order of the batches spliced so
    far, which is the order they were accepted in, and callbacks are
    invoked in the order of resolution.  So, when every request is
    submitted once, two requests [a] and [b] of one batch, [a] ahead of
    [b], are resolved in that order and their callbacks are invoked in
    that order: once [b] has been resolved, [a] was resolved before it,
    and once [b]'s callback has been invoked, [a]'s was invoked before
    it. *)
Theorem batch_order s :
  reachable B s ->
  accepted s = concat (batches s) ++ mQueue s /\
  (exists rest, concat (batches s) = resolved s ++ rest) /\
  (exists rest, resolved s = delivered s ++ rest) /\
  (forall batch a b,
     NoDup (accepted s) -> In batch (batches s) -> precedes a b batch ->
     (In b (resolved s) -> precedes a b (resolved s)) /\
     (In b (delivered s) -> precedes a b (delivered s))).
Proof.
  intros Hr. apply reachable_Inv in Hr.
  destruct Hr as [Hf (done & Hb & Hres) Hbt _ _ _ _].
  assert (H1 : concat (batches s) = resolved s ++ todo s).
  { rewrite Hbt, Hb, Hres, <- app_assoc. reflexivity. }
  assert (H2 : resolved s = delivered s ++ (in_delivery s ++ mDoneQueue s) ++ done).
  { rewrite Hres. unfold completed. now rewrite <- !app_assoc. }
  split; [rewrite Hbt, Hf, app_assoc; reflexivity|].
  split; [eauto|]. split; [eauto|].
  intros batch a b Hnd Hin Hp.
  assert (Hnd1 : NoDup (resolved s ++ todo s)).
  { rewrite <- H1. rewrite Hf, app_assoc, <- Hbt in Hnd.
    now apply NoDup_app_remove_r in Hnd. }
  assert (Hpc : precedes a b (resolved s ++ todo s)).
  { rewrite <- H1. now apply (precedes_concat a b batch). }
  assert (Hpr : In b (resolved s) -> precedes a b (resolved s)).
  { intros Hb'. now apply (precedes_prefix a b (resolved s) (todo s)). }
  split; [exact Hpr|].
  intros Hd. assert (Hbr : In b (resolved s)).
  { rewrite H2. apply in_or_app. now left. }
  specialize (Hpr Hbr). rewrite H2 in Hpr.
  apply precedes_prefix in Hpr; auto.
  rewrite <- H2. now apply NoDup_app_remove_r in Hnd1.
Qed.

(** C2 as amended: when [Shutdown] clears the running flag, every request
    still in the pending queue, like every request of the batch the
    worker holds, is resolved by the worker and spliced into the done
    queue before the worker leaves [Run]: in any state reached afterwards
    in which the worker has exited, the pending queue is empty and each of
    those requests has been resolved and is in the done queue, in the
    event loop's hands or delivered. *)
Theorem Shutdown_drains_pending s ls s2 r :
  reachable B s -> mRunFlag s = true ->
  In r (in_batch s ++ mQueue s) ->
  steps B (Shutdown_locked s) ls s2 -> worker s2 = WExited ->
  mRunFlag (Shutdown_locked s) = false /\
  mQueue s2 = [] /\ In r (resolved s2) /\ In r (completed s2).
Proof.
  intros Hr Hrun Hin Hst Hw.
  assert (Hr1 : reachable B (Shutdown_locked s)).
  { eapply reach_step; [exact Hr|constructor]. }
  assert (Hr2 : reachable B s2) by (eapply steps_reachable; eauto).
  destruct (worker_gone_drained s2 (reachable_Inv _ Hr2) (or_introl Hw))
    as (Hq & Hacc & Hres).
  assert (Hin2 : In r (accepted s2)).
  { destruct (steps_logs _ _ _ Hst) as (Ha & _).
    apply (extends_In _ _ _ Ha).
    destruct (step_logs _ _ _ (step_Shutdown B s)) as (Ha0 & _).
    apply (extends_In _ _ _ Ha0).
    rewrite (inv_fifo _ (reachable_Inv _ Hr)).
    apply in_or_app. now right. }
  repeat split; auto.
  - unfold Shutdown_locked, Notify. rewrite Hrun.
    destruct (worker (set_mRunFlag false s)); reflexivity.
  - rewrite Hres, <- Hacc. exact Hin2.
  - rewrite <- Hacc. exact Hin2.
Qed.

End EngineFacts.

(** * Liveness *)

Section Liveness.

Variable B : Backend.

(** *** Steps of the other threads, and steps that bring a thread closer *)

Lemma step_other_worker s l s' :
  Inv s -> step B s l s' -> l <> LRun ->
  worker s = WReady \/ (exists q p, worker s = WProc q p) ->
  worker s' = worker s.
Proof.
  intros [_ _ _ _ _ _ Hl] Hs Hne Hw.
  destruct Hs as [s Hj | s | s Hj Hwk | s r | s s' Hrun | s Hwk | s s' Ht];
    try (now elim Hne);
    destruct s as [q dq run cnt buf w d reg j h acc bat res del nt wk];
    unfold lifecycle in Hl; cbn in *.
  - destruct run; cbn; auto. subst j.
    destruct Hw as [->|(tq & p & ->)]; discriminate.
  - destruct run; cbn; auto.
    destruct Hw as [->|(tq & p & ->)]; reflexivity.
  - subst w. destruct Hw as [?|(tq & p & ?)]; discriminate.
  - destruct run; cbn; auto.
    destruct q; cbn; auto.
    destruct Hw as [->|(tq & p & ->)]; reflexivity.
  - subst w. destruct Hw as [?|(tq & p & ?)]; discriminate.
  - unfold Timeout_step in Ht. cbn -[Z.eqb] in Ht.
    destruct d as [| |[|x ldq]]; try destruct reg; try discriminate;
      try destruct (0 =? _); injection Ht as <-; reflexivity.
Qed.

Lemma step_other_dispatcher s l s' :
  step B s l s' -> l <> LTimeout ->
  dispatcher s' = dispatcher s /\ delivered s' = delivered s.
Proof.
  intros Hs Hne.
  destruct Hs as [s Hj | s | s Hj Hwk | s r | s s' Hrun | s Hwk | s s' Ht];
    try (now elim Hne);
    destruct s as [q dq run cnt buf w d reg j h acc bat res del nt wk];
    cbn in *.
  - destruct run; cbn; auto.
  - destruct run, w; cbn; auto.
  - auto.
  - destruct run, q, w; cbn; auto.
  - destruct w as [| | |tq [|r next]|]; try discriminate.
    + injection Hrun as <-. unfold Run_top. destruct run, q; cbn; auto.
    + injection Hrun as <-. unfold Run_finish, Run_top.
      destruct tq, dq, run, q; cbn; auto.
    + unfold Run_step in Hrun. cbn [worker mNameBuf requests] in Hrun.
      destruct (Process B buf (h r)) as [[[b' r'] e']|]; [|discriminate].
      injection Hrun as <-. cbn; auto.
  - auto.
Qed.

Lemma step_mono s l s' :
  Inv s -> step B s l s' ->
  (length (completed s) <= length (completed s'))%nat /\
  (length (completed s ++ in_batch s) <=
   length (completed s' ++ in_batch s'))%nat.
Proof.
  intros [_ _ _ _ _ _ Hl] Hs.
  destruct Hs as [s Hj | s | s Hj Hwk | s r | s s' Hrun | s Hwk | s s' Ht];
    destruct s as [q dq run cnt buf w d reg j h acc bat res del nt wk];
    unfold completed, in_batch, in_delivery, lifecycle in *; cbn in *.
  - subst j. destruct run, w; try discriminate; cbn; lens.
  - destruct run, w; cbn; lens.
  - subst w. lens.
  - destruct run, q, w; cbn; lens.
  - destruct w as [| | |tq [|r next]|]; try discriminate.
    + injection Hrun as <-. unfold Run_top. destruct run, q; cbn; lens.
    + injection Hrun as <-. unfold Run_finish, Run_top.
      destruct tq, dq, run, q; cbn; lens.
    + unfold Run_step in Hrun. cbn [worker mNameBuf requests] in Hrun.
      destruct (Process B buf (h r)) as [[[b' r'] e']|]; [|discriminate].
      injection Hrun as <-. cbn; lens.
  - subst w. lens.
  - unfold Timeout_step in Ht. cbn -[Z.eqb] in Ht.
    destruct d as [| |[|x ldq]]; try destruct reg; try discriminate;
      try destruct (0 =? _); injection Ht as <-; cbn; lens.
Qed.

Lemma Run_enabled s k :
  Inv s -> (k <= length (accepted s))%nat ->
  ~ (k <= length (completed s))%nat -> Run_step B s <> None.
Proof.
  intros [Hf _ _ _ Hbuf Hw Hl] Hk Hn.
  destruct s as [q dq run cnt buf w d reg j h acc bat res del nt wk];
    unfold completed, in_batch, in_delivery, lifecycle in *; cbn in *.
  apply (f_equal (@length _)) in Hf.
  destruct w as [| | |tq [|r next]|]; try discriminate.
  - destruct run, j, q; try discriminate;
      try (rewrite andb_false_r in Hl; discriminate); lens.
  - rewrite Hw in Hf by reflexivity. lens.
  - unfold Run_step; cbn [worker mNameBuf requests].
    destruct (Process_returns B buf (h r) Hbuf) as (b' & r' & e' & -> & _).
    discriminate.
  - destruct run, j, q; try discriminate;
      try (rewrite andb_false_r in Hl; discriminate); lens.
Qed.

Lemma Run_toward_splice s s' k :
  Inv s -> Run_step B s = Some s' ->
  (k <= length (accepted s))%nat ->
  ~ (k <= length (completed s ++ in_batch s))%nat ->
  (k <= length (completed s' ++ in_batch s'))%nat \/
  (to_splice s' < to_splice s)%nat.
Proof.
  intros [Hf _ _ _ Hbuf Hw Hl] Hrun Hk Hn.
  destruct s as [q dq run cnt buf w d reg j h acc bat res del nt wk];
    unfold completed, in_batch, in_delivery, lifecycle, to_splice in *;
    cbn in *.
  apply (f_equal (@length _)) in Hf.
  destruct w as [| | |tq [|r next]|]; try discriminate.
  - injection Hrun as <-. unfold Run_top.
    destruct q; [lens|]. rewrite andb_false_r. cbn. left. lens.
  - injection Hrun as <-. unfold Run_finish, Run_top.
    destruct q; [lens|].
    destruct tq, dq, run; cbn; left; lens.
  - unfold Run_step in Hrun. cbn [worker mNameBuf requests] in Hrun.
    destruct (Process B buf (h r)) as [[[b' r'] e']|]; [|discriminate].
    injection Hrun as <-. cbn. right. lia.
Qed.

Lemma Run_toward_finish s s' k :
  Inv s -> Run_step B s = Some s' ->
  (k <= length (completed s ++ in_batch s))%nat ->
  ~ (k <= length (completed s))%nat ->
  (k <= length (completed s'))%nat \/ (to_finish s' < to_finish s)%nat.
Proof.
  intros [Hf _ _ _ Hbuf Hw Hl] Hrun Hk Hn.
  destruct s as [q dq run cnt buf w d reg j h acc bat res del nt wk];
    unfold completed, in_batch, todo, in_delivery, lifecycle, to_finish in *;
    cbn in *.
  destruct w as [| | |tq [|r next]|]; try discriminate; try solve [exfalso; lens].
  - injection Hrun as <-. unfold Run_finish, Run_top.
    destruct tq, dq, run, q; cbn; left; lens.
  - unfold Run_step in Hrun. cbn [worker mNameBuf requests] in Hrun.
    destruct (Process B buf (h r)) as [[[b' r'] e']|]; [|discriminate].
    injection Hrun as <-. cbn. right. lia.
Qed.

Lemma Timeout_toward_delivery s s' k :
  Inv s -> Timeout_step s = Some s' ->
  (k <= length (completed s))%nat ->
  ~ (k <= length (delivered s))%nat ->
  (k <= length (delivered s'))%nat \/ (to_deliver k s' < to_deliver k s)%nat.
Proof.
  intros [_ _ _ Hc _ _ _] Ht Hk Hn.
  destruct s as [q dq run cnt buf w d reg j h acc bat res del nt wk];
    unfold completed, in_delivery, to_deliver, Timeout_step in *;
    cbn -[Z.eqb Nat.leb] in *.
  destruct d as [| |[|x ldq]].
  - destruct reg; [|discriminate].
    destruct dq as [|y dq]; [exfalso; lens|].
    cbn in Hc. subst cnt. injection Ht as <-. right.
    cbn -[Nat.leb]. rewrite Nat.add_0_r.
    destruct (Nat.leb_spec k (length del)); lia.
  - injection Ht as <-. right. cbn -[Nat.leb].
    rewrite Nat.add_0_r in *. cbn [length app] in Hk.
    rewrite length_app in Hk.
    destruct (Nat.leb_spec k (length del)); [lia|].
    destruct (Nat.leb_spec k (length del + length dq)); lia.
  - injection Ht as <-. right. cbn -[Nat.leb].
    rewrite Nat.add_0_r in *.
    destruct (Nat.leb_spec k (length del)); lia.
  - injection Ht as <-. cbn -[Nat.leb]. rewrite length_app. cbn [length].
    destruct (Nat.le_gt_cases k (length del + 1)); [now left|right].
    destruct (Nat.leb_spec k (length del + S (length ldq)));
      destruct (Nat.leb_spec k (length del + 1 + length ldq)); lia.
Qed.

Lemma Run_enabled_worker s :
  Run_step B s <> None ->
  worker s = WReady \/ (exists q p, worker s = WProc q p).
Proof.
  unfold Run_step. destruct (worker s); intros H; try (now elim H); eauto.
Qed.

Lemma extends_shorter (a d full : list ReqId) :
  extends a full -> extends d full -> (length a <= length d)%nat -> extends a d.
Proof.
  intros [x ->] [y Hy] Hlen.
  apply app_eq_app in Hy as (l & [[Ha Hl]|[Hd Hl]]).
  - subst a. rewrite length_app in Hlen.
    destruct l; [|cbn in Hlen; lia]. exists []. now rewrite !app_nil_r.
  - now exists l.
Qed.

(** *** Progress along an execution *)

Section Progress.

Variable e : nat -> State.
Variable sched : nat -> Label.
Hypothesis Hex : execution B e sched.

Lemma execution_reachable n : reachable B (e n).
Proof.
  destruct Hex as [H0 Hs]. induction n as [|n IH].
  - now constructor.
  - exact (reach_step _ _ _ _ IH (Hs n)).
Qed.

Lemma execution_Inv n : Inv (e n).
Proof. apply (reachable_Inv B), execution_reachable. Qed.

Lemma execution_logs n m :
  (n <= m)%nat ->
  extends (accepted (e n)) (accepted (e m)) /\
  extends (resolved (e n)) (resolved (e m)) /\
  extends (delivered (e n)) (delivered (e m)).
Proof.
  induction 1 as [|m _ (IH1 & IH2 & IH3)].
  - auto using extends_refl.
  - destruct (step_logs B _ _ _ (proj2 Hex m)) as (H1 & H2 & H3).
    repeat split; eapply extends_trans; eassumption.
Qed.

(** A thread whose every step, while the goal is not reached, brings it
    closer, and which is not left behind by the others, reaches the goal
    if it keeps being scheduled. *)
Section LeadsTo.

Variable mine : Label -> bool.
Variables Pre Goal : State -> Prop.
Variable mu : State -> nat.

Hypothesis Goal_dec : forall s, {Goal s} + {~ Goal s}.
Hypothesis Pre_stable :
  forall s l s', Inv s -> step B s l s' -> Pre s -> Pre s'.
Hypothesis Hsched :
  forall n, Pre (e n) ->
    exists m, (n <= m)%nat /\ (Goal (e m) \/ mine (sched m) = true).
Hypothesis Hmine :
  forall s l s', Inv s -> step B s l s' -> Pre s -> ~ Goal s ->
    mine l = true -> Goal s' \/ (mu s' < mu s)%nat.
Hypothesis Hother :
  forall s l s', Inv s -> step B s l s' -> Pre s -> ~ Goal s ->
    mine l = false -> Goal s' \/ (mu s' <= mu s)%nat.

Lemma one_step n :
  Pre (e n) -> ~ Goal (e n) ->
  Pre (e (S n)) /\
  (Goal (e (S n)) \/
   (mu (e (S n)) <= mu (e n))%nat /\
   (mine (sched n) = true -> (mu (e (S n)) < mu (e n))%nat)).
Proof.
  intros HP HG. pose proof (proj2 Hex n) as Hs.
  pose proof (execution_Inv n) as HI. split; [eauto|].
  destruct (mine (sched n)) eqn:E.
  - destruct (Hmine _ _ _ HI Hs HP HG E); [now left|right]. split; [lia|auto].
  - destruct (Hother _ _ _ HI Hs HP HG E); [now left|right].
    split; [lia|discriminate].
Qed.

Lemma walk d : forall n,
  Pre (e n) ->
  (exists m, (n <= m <= n + d)%nat /\ Goal (e m)) \/
  (mu (e (n + d)) <= mu (e n))%nat /\ Pre (e (n + d)).
Proof.
  induction d as [|d IH]; intros n HP.
  - right. rewrite Nat.add_0_r. auto.
  - destruct (IH n HP) as [(m & Hm & HG)|[Hmu HP']].
    + left. exists m. split; [lia|exact HG].
    + destruct (Goal_dec (e (n + d))) as [HG|HG].
      * left. exists (n + d)%nat. split; [lia|exact HG].
      * destruct (one_step _ HP' HG) as [HP'' [HG'|[Hle _]]];
          replace (n + S d)%nat with (S (n + d)) by lia.
        -- left. exists (S (n + d)). split; [lia|exact HG'].
        -- right. split; [lia|exact HP''].
Qed.

Lemma leads_to : forall n, Pre (e n) -> exists m, (n <= m)%nat /\ Goal (e m).
Proof.
  assert (H : forall k n, (mu (e n) <= k)%nat -> Pre (e n) ->
                exists m, (n <= m)%nat /\ Goal (e m)).
  { induction k as [|k IH]; intros n Hk HP;
      destruct (Hsched n HP) as (m & Hnm & [HG|Hm]);
      try (exists m; split; [exact Hnm|exact HG]);
      (destruct (walk (m - n) n HP) as [(m' & Hm' & HG)|[Hmu HP']];
       [exists m'; split; [lia|exact HG]|]);
      replace (n + (m - n))%nat with m in * by lia;
      (destruct (Goal_dec (e m)) as [HG|HG];
       [exists m; split; [exact Hnm|exact HG]|]);
      destruct (one_step _ HP' HG) as [HP'' [HG'|[_ Hlt]]];
      try (exists (S m); split; [lia|exact HG']);
      specialize (Hlt Hm).
    - lia.
    - destruct (IH (S m)) as (m' & Hm' & HG'); [lia|exact HP''|].
      exists m'. split; [lia|exact HG']. }
  intros n. apply (H (mu (e n))). lia.
Qed.

End LeadsTo.

Hypothesis Hwf : worker_fair B e sched.
Hypothesis Hdr : dispatcher_runs sched.

Lemma worker_scheduled (Pre Goal : State -> Prop) k :
  (forall s, {Goal s} + {~ Goal s}) ->
  (forall s, Inv s -> Pre s -> ~ Goal s ->
     (k <= length (accepted s))%nat /\ ~ (k <= length (completed s))%nat) ->
  (forall n m, (n <= m)%nat -> Pre (e n) -> Pre (e m)) ->
  forall n, Pre (e n) ->
    exists m, (n <= m)%nat /\ (Goal (e m) \/ is_run (sched m) = true).
Proof.
  intros Gdec Hen Hst n HP. destruct (Hwf n) as (m & Hnm & Hm).
  exists m. split; [exact Hnm|].
  destruct (Gdec (e m)) as [HG|HG]; [now left|right].
  destruct Hm as [->|Hnone]; [reflexivity|]. exfalso.
  destruct (Hen (e m) (execution_Inv m) (Hst n m Hnm HP) HG)
    as [H1 H2].
  exact (Run_enabled _ _ (execution_Inv m) H1 H2 Hnone).
Qed.

Lemma stable_along (P : State -> Prop) :
  (forall s l s', Inv s -> step B s l s' -> P s -> P s') ->
  forall n m, (n <= m)%nat -> P (e n) -> P (e m).
Proof.
  intros H n m Hnm HP. induction Hnm as [|m _ IH]; [exact HP|].
  exact (H _ _ _ (execution_Inv m) (proj2 Hex m) IH).
Qed.

Lemma spliced_eventually k n :
  (k <= length (accepted (e n)))%nat ->
  exists m, (n <= m)%nat /\
    (k <= length (completed (e m) ++ in_batch (e m)))%nat.
Proof.
  assert (Hst : forall s l s', Inv s -> step B s l s' ->
            (k <= length (accepted s))%nat -> (k <= length (accepted s'))%nat).
  { intros s l s' _ Hs Hk. destruct (step_logs B _ _ _ Hs) as (Ha & _).
    apply extends_length in Ha. lia. }
  assert (Hen : forall s, Inv s -> (k <= length (accepted s))%nat ->
            ~ (k <= length (completed s ++ in_batch s))%nat ->
            (k <= length (accepted s))%nat /\ ~ (k <= length (completed s))%nat).
  { intros s _ Hk Hn. split; [exact Hk|]. rewrite length_app in Hn. lia. }
  apply (leads_to is_run
           (fun s => (k <= length (accepted s))%nat)
           (fun s => (k <= length (completed s ++ in_batch s))%nat)
           to_splice).
  - intros s. apply le_dec.
  - exact Hst.
  - apply (worker_scheduled
             (fun s => (k <= length (accepted s))%nat)
             (fun s => (k <= length (completed s ++ in_batch s))%nat) k).
    + intros s; apply le_dec.
    + exact Hen.
    + apply (stable_along _ Hst).
  - intros s l s' HI Hs HP HG Hl. destruct l; try discriminate.
    inversion Hs; subst. eapply Run_toward_splice; eauto.
  - intros s l s' HI Hs HP HG Hl. right.
    destruct (Hen s HI HP HG) as [H1 H2].
    pose proof (Run_enabled_worker s (Run_enabled s k HI H1 H2)) as Hw.
    assert (Hne : l <> LRun) by (intros ->; discriminate).
    unfold to_splice. rewrite (step_other_worker s l s' HI Hs Hne Hw). lia.
Qed.

Lemma finished_eventually k n :
  (k <= length (completed (e n) ++ in_batch (e n)))%nat ->
  exists m, (n <= m)%nat /\ (k <= length (completed (e m)))%nat.
Proof.
  assert (Hst : forall s l s', Inv s -> step B s l s' ->
            (k <= length (completed s ++ in_batch s))%nat ->
            (k <= length (completed s' ++ in_batch s'))%nat).
  { intros s l s' HI Hs Hk. destruct (step_mono _ _ _ HI Hs) as (_ & H). lia. }
  assert (Hen : forall s, Inv s ->
            (k <= length (completed s ++ in_batch s))%nat ->
            ~ (k <= length (completed s))%nat ->
            (k <= length (accepted s))%nat /\ ~ (k <= length (completed s))%nat).
  { intros s HI Hk Hn. split; [|exact Hn].
    rewrite (inv_fifo _ HI), app_assoc, length_app. lia. }
  apply (leads_to is_run
           (fun s => (k <= length (completed s ++ in_batch s))%nat)
           (fun s => (k <= length (completed s))%nat)
           to_finish).
  - intros s. apply le_dec.
  - exact Hst.
  - apply (worker_scheduled
             (fun s => (k <= length (completed s ++ in_batch s))%nat)
             (fun s => (k <= length (completed s))%nat) k).
    + intros s; apply le_dec.
    + exact Hen.
    + apply (stable_along _ Hst).
  - intros s l s' HI Hs HP HG Hl. destruct l; try discriminate.
    inversion Hs; subst. eapply Run_toward_finish; eauto.
  - intros s l s' HI Hs HP HG Hl. right.
    destruct (Hen s HI HP HG) as [H1 H2].
    pose proof (Run_enabled_worker s (Run_enabled s k HI H1 H2)) as Hw.
    assert (Hne : l <> LRun) by (intros ->; discriminate).
    unfold to_finish, todo. rewrite (step_other_worker s l s' HI Hs Hne Hw). lia.
Qed.

Lemma delivered_eventually k n :
  (k <= length (completed (e n)))%nat ->
  exists m, (n <= m)%nat /\ (k <= length (delivered (e m)))%nat.
Proof.
  apply (leads_to is_timeout
           (fun s => (k <= length (completed s))%nat)
           (fun s => (k <= length (delivered s))%nat)
           (to_deliver k)).
  - intros s. apply le_dec.
  - intros s l s' HI Hs Hk. destruct (step_mono _ _ _ HI Hs) as (H & _). lia.
  - intros n' _. destruct (Hdr n') as (m & Hm & Hl). exists m.
    split; [exact Hm|right]. now rewrite Hl.
  - intros s l s' HI Hs HP HG Hl. destruct l; try discriminate.
    inversion Hs; subst. eapply Timeout_toward_delivery; eauto.
  - intros s l s' HI Hs HP HG Hl. right.
    assert (Hne : l <> LTimeout) by (intros ->; discriminate).
    destruct (step_other_dispatcher s l s' Hs Hne) as [Hd Hdel].
    unfold to_deliver, in_delivery. rewrite Hd, Hdel. lia.
Qed.

End Progress.

(** C1 as amended: in every execution, also one that ends in a completed
    [Shutdown], the callbacks made so far are, in order, the first of the
    requests accepted so far, so that no request is called back more often
    than it was accepted; and if moreover the worker is scheduled fairly
    and the event loop keeps running [Timeout], every request accepted at
    some instant has been called back from some later instant on, so that
    a request submitted once is called back exactly once. *)
Theorem callbacks_exactly_once e sched :
  execution B e sched ->
  (forall k, extends (delivered (e k)) (accepted (e k))) /\
  (worker_fair B e sched -> dispatcher_runs sched ->
   (forall n, exists m, (n <= m)%nat /\
      forall k, (m <= k)%nat -> extends (accepted (e n)) (delivered (e k))) /\
   (forall n r, In r (accepted (e n)) ->
      (forall k, (count_occ Nat.eq_dec (accepted (e k)) r <= 1)%nat) ->
      exists m, (n <= m)%nat /\
        forall k, (m <= k)%nat ->
          count_occ Nat.eq_dec (delivered (e k)) r = 1%nat)).
Proof.
  intros Hex.
  assert (Hsafe : forall k, extends (delivered (e k)) (accepted (e k))).
  { intros k. pose proof (inv_fifo _ (execution_Inv e sched Hex k)) as Hf.
    unfold completed in Hf. rewrite <- !app_assoc in Hf. eexists; exact Hf. }
  split; [exact Hsafe|]. intros Hwf Hdr.
  assert (Hlive : forall n, exists m, (n <= m)%nat /\
            forall k, (m <= k)%nat -> extends (accepted (e n)) (delivered (e k))).
  { intros n.
    destruct (spliced_eventually e sched Hex Hwf (length (accepted (e n))) n)
      as (m1 & Hm1 & H1); [lia|].
    destruct (finished_eventually e sched Hex Hwf _ m1 H1) as (m2 & Hm2 & H2).
    destruct (delivered_eventually e sched Hex Hdr _ m2 H2) as (m3 & Hm3 & H3).
    exists m3. split; [lia|]. intros k Hk.
    destruct (execution_logs e sched Hex n k) as (Ha & _); [lia|].
    destruct (execution_logs e sched Hex m3 k Hk) as (_ & _ & Hd).
    apply (extends_shorter _ _ (accepted (e k))); auto.
    apply extends_length in Hd. lia. }
  split; [exact Hlive|].
  intros n r Hin Honce. destruct (Hlive n) as (m & Hm & H). exists m.
  split; [exact Hm|]. intros k Hk.
  destruct (H k Hk) as [z Hz]. destruct (Hsafe k) as [rest Hrest].
  pose proof (Honce k) as Hc. rewrite Hrest, Hz, !count_occ_app in Hc.
  rewrite Hz, count_occ_app.
  apply (count_occ_In Nat.eq_dec) in Hin. unfold ReqId in *. lia.
Qed.


End Liveness.

(** * Further facts about [Process] *)

Lemma c_str_length_le a x :
  (String.length (c_str (a ++ NUL :: x)) <= length a)%nat.
Proof.
  induction a as [|c a IH]; cbn; [lia|].
  destruct (Ascii.eqb c NUL); cbn; lia.
Qed.

Lemma c_str_stored_bound n buf buf2 :
  store (Z.of_nat n) NUL buf = Some buf2 ->
  (String.length (c_str buf2) <= n)%nat.
Proof.
  intros H. apply store_some_inv in H as [_ ->]. rewrite Nat2Z.id.
  etransitivity; [apply c_str_length_le|]. apply firstn_le_length.
Qed.

Section ResolutionMore.

Variable B : Backend.

Lemma format_entries_trace entries : forall st,
  Z.of_nat (length (nameBuf st)) = mNameBuf_size ->
  exists st',
    format_entries B entries st = Some st' /\
    effects st' = effects st ++ flat_map (entry_effects B) entries /\
    (Forall (fun a => (String.length a <= 46)%nat) (ipAddresses st) ->
     Forall (fun a => (String.length a <= 46)%nat) (ipAddresses st')).
Proof.
  induction entries as [|e entries IH]; intros st Hlen.
  - exists st. cbn. rewrite app_nil_r. auto.
  - rewrite format_entries_cons. cbn [flat_map].
    unfold entry_effects at 1.
    destruct (supported e) eqn:Es.
    2:{ destruct (IH st Hlen) as (st' & H1 & H2 & H3). exists st'. auto. }
    cbv zeta.
    set (buf1 := blit (firstn (Z.to_nat INET6_ADDRSTRLEN) (snd (fmt_call B e)))
                   (nameBuf st)).
    assert (Hlen1 : length buf1 = length (nameBuf st)).
    { apply blit_length. rewrite length_firstn.
      rewrite mNameBuf_size_val in Hlen.
      assert (Z.to_nat INET6_ADDRSTRLEN = 46%nat) by reflexivity.
      unfold INET6_ADDRSTRLEN in Hlen. lia. }
    destruct (fmt_ok B e) eqn:Eok.
    + destruct (store_in_bounds INET6_ADDRSTRLEN NUL buf1) as (buf2 & Hst & Hlen2).
      { rewrite Hlen1, Hlen, mNameBuf_size_val. unfold INET6_ADDRSTRLEN. lia. }
      rewrite Hst.
      edestruct (IH (mkLocals buf2 (ipAddresses st ++ [c_str buf2]) (theErr st)
                      ((effects st ++ [EGetNameInfo e INET6_ADDRSTRLEN ni_flags])
                         ++ [ENameBufStore INET6_ADDRSTRLEN])))
        as (st' & H1 & H2 & H3).
      { cbn [nameBuf]. now rewrite Hlen2, Hlen1. }
      exists st'. cbn [nameBuf ipAddresses theErr effects] in *.
      split; [exact H1|]. split.
      * rewrite H2, <- !app_assoc. reflexivity.
      * intros HF. apply H3. apply Forall_app. split; [exact HF|].
        constructor; [|constructor].
        apply (c_str_stored_bound 46 buf1). exact Hst.
    + edestruct (IH (mkLocals buf1 (ipAddresses st) (fst (fmt_call B e))
                      (effects st ++ [EGetNameInfo e INET6_ADDRSTRLEN ni_flags])))
        as (st' & H1 & H2 & H3).
      { cbn [nameBuf]. now rewrite Hlen1. }
      exists st'. cbn [nameBuf ipAddresses theErr effects] in *.
      split; [exact H1|]. split; [|exact H3].
      rewrite H2, <- !app_assoc. reflexivity.
Qed.


Lemma formatting_calls_app a b :
  formatting_calls (a ++ b) = formatting_calls a ++ formatting_calls b.
Proof.
  induction a as [|ev a IH]; cbn; [reflexivity|].
  destruct (formatted_entry ev); cbn; now rewrite IH.
Qed.

Lemma formatting_calls_entries entries :
  formatting_calls (flat_map (entry_effects B) entries) = filter supported entries.
Proof.
  induction entries as [|e entries IH]; cbn [flat_map filter]; [reflexivity|].
  rewrite formatting_calls_app, IH. unfold entry_effects.
  destruct (supported e); [|reflexivity].
  destruct (fmt_ok B e); reflexivity.
Qed.

Lemma filter_free_entries entries :
  filter is_free (flat_map (entry_effects B) entries) = [].
Proof.
  induction entries as [|e entries IH]; cbn [flat_map]; [reflexivity|].
  rewrite filter_app, IH, app_nil_r. unfold entry_effects.
  destruct (supported e); [|reflexivity].
  destruct (fmt_ok B e); reflexivity.
Qed.

(** The whole trace of [Process] after a successful lookup. *)
Lemma Process_trace_ok buf inReq entries :
  Z.of_nat (length buf) = mNameBuf_size ->
  getaddrinfo B (mHostName inReq) mAddrInfoHints = (0, entries) ->
  exists buf' req',
    Process B buf inReq =
    Some (buf', req',
          EGetAddrInfo (mHostName inReq) mAddrInfoHints ::
          flat_map (entry_effects B) entries ++ [EFreeAddrInfo entries]) /\
    Forall (fun a => (String.length a <= 46)%nat) (mIpAddresses req').
Proof.
  intros Hlen Hga. rewrite (Process_lookup_ok B _ _ _ Hga).
  destruct (format_entries_trace entries
              (mkLocals buf [] 0 [EGetAddrInfo (mHostName inReq) mAddrInfoHints]) Hlen)
    as (l & -> & He & HF).
  cbn [effects ipAddresses] in He, HF.
  do 2 eexists. split.
  - rewrite He. reflexivity.
  - cbn [mIpAddresses]. apply HF. constructor.
Qed.

(** X1: [Process] returns, leaves the host name as it was, and leaves a
    message that goes with the status: empty when the status is 0, the
    backend's description of the status otherwise. *)
Theorem Process_message_matches_status buf inReq :
  Z.of_nat (length buf) = mNameBuf_size ->
  exists buf' req' eff,
    Process B buf inReq = Some (buf', req', eff) /\
    mHostName req' = mHostName inReq /\
    mStatusMsg req' =
      (if mStatus req' =? 0 then EmptyString
       else gai_strerror B (mStatus req')).
Proof.
  intros Hlen.
  destruct (getaddrinfo B (mHostName inReq) mAddrInfoHints) as [code res] eqn:Hga.
  destruct (Z.eq_dec code 0) as [->|Hc].
  - rewrite (Process_lookup_ok B _ _ _ Hga).
    destruct (format_entries_spec B res
                (mkLocals buf [] 0 [EGetAddrInfo (mHostName inReq) mAddrInfoHints]) Hlen)
      as (l & -> & _).
    do 3 eexists. split; [reflexivity|]. cbn [mHostName mStatus mStatusMsg].
    split; [reflexivity|].
    destruct (ipAddresses l); [|reflexivity].
    destruct (theErr l =? 0) eqn:E; cbn [negb]; [reflexivity|]. now rewrite E.
  - rewrite (Process_on_lookup_error B _ _ _ _ Hga Hc).
    do 3 eexists. split; [reflexivity|]. cbn [mHostName mStatus mStatusMsg].
    split; [reflexivity|]. now rewrite (proj2 (Z.eqb_neq code 0) Hc).
Qed.

(** X2: after a successful lookup the formatting call is made for the
    entries of family [AF_INET] or [AF_INET6], once each and in the order
    of the chain, and for no other entry. *)
Theorem Process_formats_supported_entries buf inReq entries :
  Z.of_nat (length buf) = mNameBuf_size ->
  getaddrinfo B (mHostName inReq) mAddrInfoHints = (0, entries) ->
  exists buf' req' eff,
    Process B buf inReq = Some (buf', req', eff) /\
    formatting_calls eff = filter supported entries.
Proof.
  intros Hlen Hga.
  destruct (Process_trace_ok buf inReq entries Hlen Hga) as (buf' & req' & HP & _).
  do 3 eexists. split; [exact HP|].
  cbn [formatting_calls formatted_entry].
  rewrite formatting_calls_app, formatting_calls_entries. cbn.
  now rewrite app_nil_r.
Qed.

(** X3: the result chain is freed once when the lookup succeeded or left
    a chain behind, and nothing is freed otherwise; no chain is freed
    twice. *)
Theorem Process_frees_result_once buf inReq :
  Z.of_nat (length buf) = mNameBuf_size ->
  exists buf' req' eff,
    Process B buf inReq = Some (buf', req', eff) /\
    filter is_free eff =
      let '(code, res) := getaddrinfo B (mHostName inReq) mAddrInfoHints in
      match code, res with
      | 0, _ | _, _ :: _ => [EFreeAddrInfo res]
      | _, [] => []
      end.
Proof.
  intros Hlen.
  destruct (getaddrinfo B (mHostName inReq) mAddrInfoHints) as [code res] eqn:Hga.
  destruct (Z.eq_dec code 0) as [->|Hc].
  - destruct (Process_trace_ok buf inReq res Hlen Hga) as (buf' & req' & HP & _).
    do 3 eexists. split; [exact HP|]. cbn [filter is_free].
    rewrite filter_app, filter_free_entries. reflexivity.
  - rewrite (Process_on_lookup_error B _ _ _ _ Hga Hc).
    do 3 eexists. split; [reflexivity|].
    destruct code; [now elim Hc| |]; destruct res; reflexivity.
Qed.

(** X4: whatever the backend writes into the name buffer, every address
    [Process] leaves in the request is shorter than [INET6_ADDRSTRLEN]
    plus one: the NUL stored at the end of the buffer bounds the read. *)
Theorem Process_addresses_bounded buf inReq :
  Z.of_nat (length buf) = mNameBuf_size ->
  exists buf' req' eff,
    Process B buf inReq = Some (buf', req', eff) /\
    Forall (fun a => Z.of_nat (String.length a) <= INET6_ADDRSTRLEN)
      (mIpAddresses req').
Proof.
  intros Hlen.
  destruct (getaddrinfo B (mHostName inReq) mAddrInfoHints) as [code res] eqn:Hga.
  destruct (Z.eq_dec code 0) as [->|Hc].
  - destruct (Process_trace_ok buf inReq res Hlen Hga) as (buf' & req' & HP & HF).
    do 3 eexists. split; [exact HP|].
    eapply Forall_impl; [|exact HF]. cbn. intros a Ha.
    unfold INET6_ADDRSTRLEN. lia.
  - rewrite (Process_on_lookup_error B _ _ _ _ Hga Hc).
    do 3 eexists. split; [reflexivity|]. constructor.
Qed.

(** X5: if the backend terminates the text of every entry it formats,
    the request and the effects of [Process] do not depend on what the
    name buffer held before the call. *)
Theorem Process_ignores_buffer_contents buf1 buf2 inReq :
  Z.of_nat (length buf1) = mNameBuf_size ->
  Z.of_nat (length buf2) = mNameBuf_size ->
  (forall e, In e (snd (getaddrinfo B (mHostName inReq) mAddrInfoHints)) ->
     terminates_text B e) ->
  exists b1 b2 req' eff,
    Process B buf1 inReq = Some (b1, req', eff) /\
    Process B buf2 inReq = Some (b2, req', eff).
Proof.
  intros H1 H2 Hc.
  destruct (getaddrinfo B (mHostName inReq) mAddrInfoHints) as [code res] eqn:Hga.
  cbn [snd] in Hc.
  destruct (Z.eq_dec code 0) as [->|Hne].
  - rewrite !(Process_lookup_ok B _ _ _ Hga).
    set (st0 := fun b => mkLocals b [] 0 [EGetAddrInfo (mHostName inReq) mAddrInfoHints]).
    destruct (format_entries_spec B res (st0 buf1) H1)
      as (l1 & E1 & _ & He1 & _ & Ha1 & _).
    destruct (format_entries_spec B res (st0 buf2) H2)
      as (l2 & E2 & _ & He2 & _ & Ha2 & _).
    destruct (format_entries_trace res (st0 buf1) H1) as (l1' & E1' & Hf1 & _).
    destruct (format_entries_trace res (st0 buf2) H2) as (l2' & E2' & Hf2 & _).
    rewrite E1 in E1'. injection E1' as <-. rewrite E2 in E2'. injection E2' as <-.
    subst st0. cbv beta in *. rewrite E1, E2.
    cbn [ipAddresses theErr effects] in *.
    rewrite (Ha1 Hc), (Ha2 Hc), He1, He2, Hf1, Hf2.
    do 4 eexists. split; reflexivity.
  - rewrite !(Process_on_lookup_error B _ _ _ _ Hga Hne).
    do 4 eexists. split; reflexivity.
Qed.

(** X6: a lookup that succeeds with no entry of a supported family (an
    empty chain included) is a success with no address: status 0, empty
    message, no formatting call, the buffer untouched, the chain freed. *)
Theorem Process_no_supported_entry buf inReq entries :
  getaddrinfo B (mHostName inReq) mAddrInfoHints = (0, entries) ->
  filter supported entries = [] ->
  Process B buf inReq =
  Some (buf, mkRequest (mHostName inReq) [] 0 EmptyString,
        [EGetAddrInfo (mHostName inReq) mAddrInfoHints; EFreeAddrInfo entries]).
Proof.
  intros Hga Hns. rewrite (Process_lookup_ok B _ _ _ Hga).
  assert (H : forall st, format_entries B entries st = Some st).
  { clear Hga. induction entries as [|e es IH]; intros st; [reflexivity|].
    rewrite format_entries_cons. cbn [filter] in Hns.
    destruct (supported e); [discriminate|]. now apply IH. }
  rewrite H. reflexivity.
Qed.

End ResolutionMore.

(** * Further facts about the engine *)

Section EngineMore.

Variable B : Backend.

(** X7: whatever the state, after the locked part of [Shutdown] the flag
    is cleared, so a second [Shutdown] changes nothing and [Enqueue]
    returns [-EINVAL] and changes nothing; [Shutdown] on a facade that is
    not running changes nothing. *)
Theorem Shutdown_then_rejects s r :
  mRunFlag (Shutdown_locked s) = false /\
  Shutdown_locked (Shutdown_locked s) = Shutdown_locked s /\
  Enqueue r (Shutdown_locked s) = (- EINVAL, Shutdown_locked s) /\
  (mRunFlag s = false -> Shutdown_locked s = s).
Proof.
  assert (H : mRunFlag (Shutdown_locked s) = false).
  { unfold Shutdown_locked, Notify.
    destruct (mRunFlag s) eqn:E; cbn [negb]; [|exact E].
    destruct (worker (set_mRunFlag false s)); reflexivity. }
  split; [exact H|]. split; [|split].
  - unfold Shutdown_locked at 1. now rewrite H.
  - unfold Enqueue. now rewrite H.
  - intros E. unfold Shutdown_locked. now rewrite E.
Qed.

(** X8: no wakeup is lost.  The worker only sleeps while the facade runs
    and the pending queue is empty; whenever a request is pending the
    worker is runnable. *)
Theorem no_lost_wakeup s :
  reachable B s ->
  (worker s = WWaiting ->
   mRunFlag s = true /\ joining s = false /\ mQueue s = []) /\
  (mQueue s <> [] -> Run_step B s <> None).
Proof.
  intros Hr. pose proof (reachable_Inv B s Hr) as HI.
  destruct HI as [Hf _ _ _ Hbuf Hw Hl]. split.
  - intros E. unfold lifecycle in Hl. rewrite E in Hl.
    destruct (mRunFlag s), (joining s); try discriminate. auto.
  - intros Hq.
    apply (Run_enabled B s (length (accepted s)) (reachable_Inv B s Hr)); [lia|].
    rewrite Hf, !length_app. destruct (mQueue s); [now elim Hq|]. cbn. lia.
Qed.

(** X9: whenever no thread is inside a critical section the done counter
    is 0 or 1, and it is 0 exactly when the done queue is empty.  Inside
    the worker's critical section this fails between lines 132 and 134:
    there the done queue is non-empty while the counter is still 0,
    exactly when the batch is non-empty and the done queue was empty.  A
    [Timeout] whose unlocked test of line 101 reads that 0 returns and
    changes nothing, so it does skip a non-empty done queue; but the
    worker then raises the counter to 1 and posts a wakeup before it
    releases the mutex, with the done queue as the test skipped it: the
    drain is delayed to a later call, not lost. *)
Theorem done_counter_tracks_queue s :
  reachable B s ->
  (0 <= mDoneCount s <= 1 /\ (mDoneCount s = 0 <-> mDoneQueue s = [])) /\
  (forall theQueue, worker s = WProc theQueue [] ->
     (mDoneQueue (Run_spliced theQueue s) <> [] /\
      mDoneCount (Run_spliced theQueue s) = 0 <->
      theQueue <> [] /\ mDoneQueue s = []) /\
     (dispatcher s = DIdle -> registered s = true ->
      mDoneCount (Run_spliced theQueue s) = 0 ->
      Timeout_step (Run_spliced theQueue s) = Some (Run_spliced theQueue s)) /\
     Run_step B s = Some (Run_finish theQueue s) /\
     mDoneQueue (Run_finish theQueue s) = mDoneQueue (Run_spliced theQueue s) /\
     (mDoneCount (Run_finish theQueue s) = 0 <->
      mDoneQueue (Run_finish theQueue s) = []) /\
     (mDoneQueue (Run_spliced theQueue s) <> [] ->
      mDoneCount (Run_spliced theQueue s) = 0 ->
      mDoneCount (Run_finish theQueue s) = 1 /\
      wakeups (Run_finish theQueue s) = S (wakeups s))).
Proof.
  intros Hr. destruct (reachable_Inv B s Hr) as [_ _ _ Hc _ _ _].
  split.
  { rewrite Hc. destruct (mDoneQueue s); cbn; split; try lia; split; auto;
      discriminate. }
  intros theQueue Hw.
  destruct s as [q dq run cnt buf w d reg j h acc bat res del nt wk].
  cbn in Hw, Hc. subst w.
  unfold Run_spliced, Run_step, Run_finish, Run_top, Timeout_step,
    SyncAddAndFetch, Queue.Splice, Queue.IsEmpty.
  cbn -[Z.eqb].
  split; [|split; [|split; [reflexivity|]]].
  - destruct dq as [|x dq], theQueue as [|y tq]; cbn in Hc |- *; subst cnt;
      split; intros [H1 H2]; split; auto; try discriminate; try lia.
  - intros -> -> ->. reflexivity.
  - destruct dq as [|x dq], theQueue as [|y tq]; cbn in Hc |- *; subst cnt;
      destruct run, q; cbn;
      repeat split; intros; auto; try discriminate; try lia; congruence.
Qed.

(** X10: nothing is lost and nothing is made up: the requests accepted so
    far are, in order, those called back, those the event loop is calling
    back, the done queue, the worker's batch and the pending queue.  So a
    request submitted once and still pending is nowhere else. *)
Theorem pipeline_conservation s :
  reachable B s ->
  accepted s =
    delivered s ++ in_delivery s ++ mDoneQueue s ++ in_batch s ++ mQueue s /\
  (NoDup (accepted s) ->
   forall r, In r (mQueue s) ->
     ~ In r (in_batch s) /\ ~ In r (mDoneQueue s) /\
     ~ In r (in_delivery s) /\ ~ In r (delivered s)).
Proof.
  intros Hr. destruct (reachable_Inv B s Hr) as [Hf _ _ _ _ _ _].
  unfold completed in Hf. rewrite <- !app_assoc in Hf.
  split; [exact Hf|]. intros Hnd r Hq. rewrite Hf in Hnd.
  apply in_split in Hq as (q1 & q2 & Hq). rewrite Hq in Hnd.
  rewrite !app_assoc in Hnd. apply NoDup_remove_2 in Hnd.
  rewrite <- !app_assoc in Hnd.
  repeat split; intros Hin; apply Hnd; rewrite !in_app_iff; tauto.
Qed.

(** X11: the facade is in one of three phases.  Running: no shutdown in
    progress, handler registered, a worker thread in [Run].  Stopped (not
    running, no shutdown in progress): no worker thread, handler not
    registered, nothing pending, everything accepted resolved.  Shutting
    down: flag cleared, handler still registered, the worker not asleep. *)
Theorem lifecycle_phases s :
  reachable B s ->
  (mRunFlag s = true ->
   joining s = false /\ registered s = true /\
   (worker s = WReady \/ worker s = WWaiting \/
    exists q p, worker s = WProc q p)) /\
  (mRunFlag s = false -> joining s = false ->
   worker s = WNone /\ registered s = false /\ mQueue s = [] /\
   accepted s = completed s /\ resolved s = completed s) /\
  (joining s = true ->
   mRunFlag s = false /\ registered s = true /\
   (worker s = WReady \/ (exists q p, worker s = WProc q p) \/
    worker s = WExited /\ mQueue s = [])).
Proof.
  intros Hr. pose proof (reachable_Inv B s Hr) as HI.
  pose proof (inv_life s HI) as Hl. unfold lifecycle in Hl.
  split; [|split].
  - intros E. rewrite E in Hl.
    destruct (joining s); [discriminate|].
    destruct (worker s); try discriminate; eauto 8.
  - intros E Ej. rewrite E, Ej in Hl.
    destruct (worker s) eqn:Ew; try discriminate.
    apply andb_prop in Hl as [Hreg _].
    destruct (worker_gone_drained s HI (or_intror Ew)) as (Hq & Ha & Hres).
    destruct (registered s); [discriminate|]. auto.
  - intros Ej. rewrite Ej in Hl.
    destruct (mRunFlag s); [discriminate|].
    destruct (worker s); try discriminate; eauto 8.
    apply andb_prop in Hl as [Hreg Hq].
    destruct (mQueue s); [|discriminate]. auto 8.
Qed.

(** *** A whole call of [Timeout], not interleaved *)

Lemma deliver_loop q : forall s,
  dispatcher s = DDeliver q ->
  exists s',
    run B (repeat LTimeout (S (length q))) s = Some s' /\
    delivered s' = delivered s ++ q /\ dispatcher s' = DIdle /\
    mDoneQueue s' = mDoneQueue s /\ mDoneCount s' = mDoneCount s /\
    mQueue s' = mQueue s /\ worker s' = worker s /\
    resolved s' = resolved s /\ accepted s' = accepted s /\
    requests s' = requests s.
Proof.
  induction q as [|r q IH]; intros s Hd.
  - cbn [length repeat run fire]. unfold Timeout_step. rewrite Hd. cbn.
    eexists. split; [reflexivity|]. cbn. rewrite app_nil_r. repeat split.
  - cbn [length repeat run fire]. unfold Timeout_step at 1. rewrite Hd.
    cbn [Queue.PopFront].
    destruct (IH (set_delivered (delivered s ++ [r])
                    (set_dispatcher (DDeliver q) s)) eq_refl)
      as (s' & Hrun & H1 & H2 & H3).
    exists s'. split; [exact Hrun|]. cbn in H1, H3.
    rewrite H1, <- app_assoc. auto.
Qed.

(** X12: a call of [Timeout] that is not interleaved with the worker
    returns at once, changing nothing, when the done queue is empty;
    otherwise it calls back the whole done queue, front first, and leaves
    the done queue empty and the counter at 0. *)
Theorem Timeout_delivers_done_queue s :
  reachable B s -> dispatcher s = DIdle -> registered s = true ->
  (mDoneQueue s = [] -> Timeout_step s = Some s) /\
  (mDoneQueue s <> [] ->
   exists s',
     run B (repeat LTimeout (length (mDoneQueue s) + 3)) s = Some s' /\
     delivered s' = delivered s ++ mDoneQueue s /\
     mDoneQueue s' = [] /\ mDoneCount s' = 0 /\ dispatcher s' = DIdle /\
     mQueue s' = mQueue s /\ worker s' = worker s /\
     accepted s' = accepted s /\ requests s' = requests s).
Proof.
  intros Hr Hd Hreg. destruct (reachable_Inv B s Hr) as [_ _ _ Hc _ _ _].
  split; intros Hq.
  - unfold Timeout_step. rewrite Hd, Hreg, Hc, Hq. reflexivity.
  - replace (length (mDoneQueue s) + 3)%nat
      with (S (S (S (length (mDoneQueue s))))) by lia.
    cbn [repeat run fire]. unfold Timeout_step at 1. rewrite Hd, Hreg, Hc.
    destruct (mDoneQueue s) as [|x dq] eqn:Edq; [now elim Hq|].
    cbn [Queue.IsEmpty]. change (0 =? SyncAddAndFetch 1 0) with false.
    cbv iota. unfold Timeout_step at 1.
    cbn [dispatcher set_dispatcher mDoneQueue]. rewrite Edq.
    cbn [Queue.Splice app].
    destruct (deliver_loop (x :: dq)
                (set_dispatcher (DDeliver (x :: dq))
                   (set_mDoneCount 0 (set_mDoneQueue [] (set_dispatcher DChecked s))))
                eq_refl)
      as (s' & Hrun & H1 & H2 & H3 & H4 & H5 & H6 & _ & H7 & H8).
    exists s'. split; [exact Hrun|]. cbn in H1, H3, H4, H5, H6, H7, H8.
    repeat split; assumption.
Qed.


(** *** A whole turn of the worker's loop, not interleaved *)

Lemma run_app a : forall b s,
  run B (a ++ b) s =
  match run B a s with Some s1 => run B b s1 | None => None end.
Proof.
  induction a as [|l a IH]; intros b s; cbn [app run]; [reflexivity|].
  destruct (fire B l s); [apply IH|reflexivity].
Qed.

Lemma process_loop tq p : forall s,
  worker s = WProc tq p ->
  Z.of_nat (length (mNameBuf s)) = mNameBuf_size ->
  exists s',
    run B (repeat LRun (length p)) s = Some s' /\
    worker s' = WProc tq [] /\ resolved s' = resolved s ++ p /\
    mQueue s' = mQueue s /\ mDoneQueue s' = mDoneQueue s /\
    mRunFlag s' = mRunFlag s /\ mDoneCount s' = mDoneCount s /\
    batches s' = batches s /\ delivered s' = delivered s /\
    accepted s' = accepted s /\ wakeups s' = wakeups s.
Proof.
  induction p as [|r p IH]; intros s Hw Hbuf.
  - exists s. cbn. rewrite app_nil_r. auto 12.
  - cbn [length repeat run fire]. unfold Run_step at 1. rewrite Hw.
    destruct (Process_returns B (mNameBuf s) (requests s r) Hbuf)
      as (b' & r' & e' & -> & Hb' & _).
    edestruct (IH (set_resolved (resolved s ++ [r])
                     (set_requests (upd r r' (requests s))
                        (set_mNameBuf b' (set_worker (WProc tq p) s)))))
      as (s' & Hrun & H1 & H2 & H3); [reflexivity|exact Hb'|].
    exists s'. split; [exact Hrun|]. cbn in H2, H3.
    rewrite H2, <- app_assoc. auto.
Qed.

(** X13: a turn of the worker's loop that is not interleaved with the
    callers takes the whole pending queue as one batch, resolves it front
    to back, appends it to the done queue, sets the counter, wakes the
    event loop when the done queue was empty, and then sleeps, or exits
    when the flag is cleared. *)
Theorem Run_drains_pending_queue s :
  reachable B s -> worker s = WReady -> mQueue s <> [] ->
  exists s',
    run B (repeat LRun (length (mQueue s) + 2)) s = Some s' /\
    batches s' = batches s ++ [mQueue s] /\
    resolved s' = resolved s ++ mQueue s /\
    mDoneQueue s' = mDoneQueue s ++ mQueue s /\
    mQueue s' = [] /\ mDoneCount s' = 1 /\
    wakeups s' =
      (wakeups s + if Queue.IsEmpty (mDoneQueue s) then 1 else 0)%nat /\
    worker s' = (if mRunFlag s then WWaiting else WExited) /\
    delivered s' = delivered s /\ accepted s' = accepted s.
Proof.
  intros Hr Hw Hq. destruct (reachable_Inv B s Hr) as [_ _ _ Hc Hbuf _ _].
  replace (length (mQueue s) + 2)%nat with (S (length (mQueue s) + 1)) by lia.
  cbn [repeat]. rewrite repeat_app. cbn [run fire].
  unfold Run_step at 1. rewrite Hw. unfold Run_top.
  destruct (mQueue s) as [|x q] eqn:Eq; [now elim Hq|].
  cbn [Queue.IsEmpty Queue.Splice app]. rewrite andb_false_r.
  rewrite run_app.
  set (s1 := set_batches _ _).
  destruct (process_loop (x :: q) (x :: q) s1 eq_refl Hbuf)
    as (s2 & -> & Hw2 & H1 & H2 & H3 & H4 & H5 & H6 & H7 & H8 & H9).
  subst s1. cbn in H1, H2, H3, H4, H5, H6, H7, H8, H9.
  cbn [repeat run fire]. unfold Run_step. rewrite Hw2.
  eexists. split; [reflexivity|].
  unfold Run_finish, Run_top, SyncAddAndFetch.
  destruct s2 as [q2 dq2 run2 cnt2 buf2 w2 d2 reg2 j2 h2 acc2 bat2 res2 del2 nt2 wk2].
  cbn in *. subst.
  destruct (mDoneQueue s) as [|y dq]; cbn in Hc |- *; rewrite Hc;
    destruct (mRunFlag s); cbn; repeat split; auto; lia.
Qed.

(** *** The results the callbacks see *)

Lemma Process_result_consistent buf inReq buf' req' eff :
  Process B buf inReq = Some (buf', req', eff) ->
  result_consistent B req'.
Proof.
  unfold Process, result_consistent.
  destruct (getaddrinfo B (mHostName inReq) mAddrInfoHints) as [code res].
  cbn [set_mStatus set_mIpAddresses set_mStatusMsg mStatus mIpAddresses mHostName].
  rewrite (Z.eqb_sym 0 code).
  destruct (code =? 0) eqn:Ec; cbn [negb].
  - apply Z.eqb_eq in Ec. subst code.
    destruct (format_entries B res _) as [l|]; [|discriminate].
    rewrite (Z.eqb_sym 0 (theErr l)).
    destruct (ipAddresses l) as [|a ips] eqn:Ei; cbn [andb].
    + destruct (theErr l =? 0) eqn:Ee; cbn [negb]; intros [= _ <- _];
        cbn [mStatus mIpAddresses mStatusMsg
             set_mStatus set_mIpAddresses set_mStatusMsg];
        rewrite ?Ee; auto.
    + intros [= _ <- _]. cbn. split; [intros H; now elim H|reflexivity].
  - intros [= _ <- _].
    cbn [mStatus mIpAddresses mStatusMsg
         set_mStatus set_mIpAddresses set_mStatusMsg].
    rewrite Ec. auto.
Qed.

Lemma resolved_consistent_step s l s' :
  step B s l s' ->
  (forall r, In r (resolved s) -> result_consistent B (requests s r)) ->
  forall r, In r (resolved s') -> result_consistent B (requests s' r).
Proof.
  intros Hs.
  destruct Hs as [s Hj | s | s Hj Hwk | s x | s s' Hrun | s Hwk | s s' Ht];
    destruct s as [q dq run cnt buf w d reg j h acc bat res del nt wk];
    cbn in *.
  - destruct run; cbn; auto.
  - destruct run, w; cbn; auto.
  - auto.
  - destruct run, q, w; cbn; auto.
  - destruct w as [| | |tq [|x next]|]; try discriminate.
    + injection Hrun as <-. unfold Run_top. destruct run, q; cbn; auto.
    + injection Hrun as <-. unfold Run_finish, Run_top.
      destruct tq, dq, run, q; cbn; auto.
    + unfold Run_step in Hrun. cbn [worker mNameBuf requests] in Hrun.
      destruct (Process B buf (h x)) as [[[b' r'] e']|] eqn:EP; [|discriminate].
      injection Hrun as <-. cbn. intros IH r Hin. unfold upd.
      destruct (Nat.eqb_spec r x) as [->|Hne].
      * exact (Process_result_consistent _ _ _ _ _ EP).
      * apply IH. apply in_app_or in Hin as [Hin|[Hin|[]]]; [exact Hin|].
        now elim Hne.
  - auto.
  - unfold Timeout_step in Ht. cbn -[Z.eqb] in Ht.
    destruct d as [| |[|x ldq]]; try destruct reg; try discriminate;
      try destruct (0 =? _); injection Ht as <-; cbn; auto.
Qed.

(** X15: a request that is called back, or waits in the done queue or in
    the event loop's hands, has been resolved, and carries a consistent
    result: addresses only with status 0, and the message of its status. *)
Theorem callback_sees_consistent_result s :
  reachable B s ->
  forall r, In r (delivered s) \/ In r (mDoneQueue s) \/ In r (in_delivery s) ->
    In r (resolved s) /\ result_consistent B (requests s r).
Proof.
  intros Hr.
  assert (H : forall r, In r (resolved s) -> result_consistent B (requests s r)).
  { induction Hr as [s (h & buf & _ & ->)|s l s' _ IH Hs].
    - intros r [].
    - exact (resolved_consistent_step _ _ _ Hs IH). }
  intros r Hin.
  assert (Hres : In r (resolved s)).
  { destruct (reachable_Inv B s Hr) as [_ (done & _ & Hres) _ _ _ _ _].
    rewrite Hres. unfold completed. rewrite !in_app_iff. tauto. }
  split; [exact Hres|exact (H r Hres)].
Qed.

(** X16: a spurious wakeup of the sleeping worker changes nothing: the
    worker tests the wait condition again and goes back to sleep. *)
Theorem spurious_wakeup_harmless s :
  reachable B s -> worker s = WWaiting ->
  run B [LSpurious; LRun] s = Some s.
Proof.
  intros Hr Hw. pose proof (reachable_Inv B s Hr) as HI.
  pose proof (inv_wait s HI Hw) as Hq.
  pose proof (inv_life s HI) as Hl. unfold lifecycle in Hl.
  destruct s as [q dq run cnt buf w d reg j h acc bat res del nt wk].
  cbn in *. subst w q. destruct run, j; try discriminate. reflexivity.
Qed.

(** X17: the worker wakes the event loop at most once for each non-empty
    batch it has finished. *)
Theorem wakeups_coalesced s :
  reachable B s ->
  (wakeups s + (if Queue.IsEmpty (in_batch s) then 0 else 1)
   <= nonempty_batches s)%nat.
Proof.
  induction 1 as [s (h & buf & _ & ->)|s l s' _ IH Hs]; [cbn; lia|].
  revert IH.
  destruct Hs as [s Hj | s | s Hj Hwk | s x | s s' Hrun | s Hwk | s s' Ht];
    destruct s as [q dq run cnt buf w d reg j h acc bat res del nt wk];
    unfold nonempty_batches, in_batch; cbn in *.
  - destruct run; cbn; [auto|]. destruct w as [| | |[|] ?|]; cbn; arith.
  - destruct run, w; cbn; auto.
  - subst w. auto.
  - destruct run, q, w; cbn; auto.
  - destruct w as [| | |tq [|x next]|]; try discriminate.
    + injection Hrun as <-. unfold Run_top.
      destruct run, q; cbn; rewrite ?filter_app, ?length_app; cbn; arith.
    + injection Hrun as <-. unfold Run_finish, Run_top.
      destruct tq, dq, run, q; cbn; rewrite ?filter_app, ?length_app; cbn; arith.
    + unfold Run_step in Hrun. cbn [worker mNameBuf requests] in Hrun.
      destruct (Process B buf (h x)) as [[[b' r'] e']|]; [|discriminate].
      injection Hrun as <-. cbn. auto.
  - subst w. auto.
  - unfold Timeout_step in Ht. cbn -[Z.eqb] in Ht.
    destruct d as [| |[|x ldq]]; try destruct reg; try discriminate;
      try destruct (0 =? _); injection Ht as <-; cbn; auto.
Qed.

(** *** The end of a shutdown *)

Lemma released_dec s : {released s} + {~ released s}.
Proof.
  unfold released. destruct (worker s); destruct (joining s);
    try (left; auto; fail); right; intros [H|H]; discriminate.
Qed.

Lemma not_released_runnable s :
  Inv s -> ~ released s ->
  mRunFlag s = false /\ joining s = true /\
  (worker s = WReady \/ exists q p, worker s = WProc q p).
Proof.
  intros HI Hn. pose proof (inv_life s HI) as Hl. unfold lifecycle, released in *.
  destruct (joining s); [|elim Hn; auto].
  destruct (mRunFlag s); [discriminate|].
  destruct (worker s); try discriminate; eauto 6.
  elim Hn; auto.
Qed.

Lemma step_other_pending s l s' :
  step B s l s' -> l <> LRun -> mRunFlag s = false -> joining s = true ->
  mQueue s' = mQueue s.
Proof.
  intros Hs Hne Hrun Hj.
  destruct Hs as [s Hj' | s | s Hj' Hwk | s r | s s' Hr | s Hwk | s s' Ht];
    try (now elim Hne);
    destruct s as [q dq run cnt buf w d reg j h acc bat res del nt wk];
    cbn in *; subst; try discriminate; try reflexivity.
  unfold Timeout_step in Ht. cbn -[Z.eqb] in Ht.
  destruct d as [| |[|x ldq]]; try destruct reg; try discriminate;
    try destruct (0 =? _); injection Ht as <-; reflexivity.
Qed.

Lemma Run_toward_exit s s' :
  Inv s -> Run_step B s = Some s' -> ~ released s ->
  released s' \/ (to_exit s' < to_exit s)%nat.
Proof.
  intros HI Hrun Hn.
  destruct (not_released_runnable s HI Hn) as (Hf & Hj & Hw).
  destruct s as [q dq run cnt buf w d reg j h acc bat res del nt wk];
    unfold released, to_exit in *; cbn in *. subst run j.
  destruct w as [| | |tq [|r next]|]; try discriminate.
  - injection Hrun as <-. unfold Run_top. cbn. right.
    rewrite Nat.add_0_r. lia.
  - injection Hrun as <-. unfold Run_finish, Run_top.
    destruct q as [|y q]; [destruct tq, dq; cbn; auto|].
    destruct tq, dq; cbn; right; rewrite ?Nat.add_0_r; lia.
  - unfold Run_step in Hrun. cbn [worker mNameBuf requests] in Hrun.
    destruct (Process B buf (h r)) as [[[b' r'] e']|]; [|discriminate].
    injection Hrun as <-. cbn. right. lia.
Qed.

Lemma join_needs_exit s l s' :
  step B s l s' -> joining s = true -> joining s' = false ->
  worker s = WExited.
Proof.
  intros Hs Hj Hj'.
  destruct Hs as [s Hj0 | s | s Hj0 Hwk | s r | s s' Hr | s Hwk | s s' Ht];
    try exact Hwk;
    destruct s as [q dq run cnt buf w d reg j h acc bat res del nt wk];
    cbn in *; subst; try discriminate.
  - destruct run, w; discriminate.
  - destruct run, q, w; discriminate.
  - destruct w as [| | |tq [|x next]|]; try discriminate.
    + injection Hr as <-. unfold Run_top in Hj'.
      destruct run, q; discriminate.
    + injection Hr as <-. unfold Run_finish, Run_top in Hj'.
      destruct tq, dq, run, q; discriminate.
    + unfold Run_step in Hr. cbn [worker mNameBuf requests] in Hr.
      destruct (Process B buf (h x)) as [[[b' r'] e']|]; [|discriminate].
      injection Hr as <-. discriminate.
  - unfold Timeout_step in Ht. cbn -[Z.eqb] in Ht.
    destruct d as [| |[|x ldq]]; try destruct reg; try discriminate;
      try destruct (0 =? _); injection Ht as <-; discriminate.
Qed.

(** X18: a [Shutdown] blocked in [Join] is released: if the worker is
    scheduled fairly, it leaves [Run], with the pending queue empty and
    everything accepted resolved. *)
Theorem Shutdown_join_returns e sched :
  execution B e sched -> worker_fair B e sched ->
  forall n, joining (e n) = true ->
    exists m, (n <= m)%nat /\
      worker (e m) = WExited /\ joining (e m) = true /\
      mQueue (e m) = [] /\ resolved (e m) = accepted (e m).
Proof.
  intros Hex Hwf n Hj.
  assert (Hrel : exists m, (n <= m)%nat /\ released (e m)).
  { apply (leads_to B e sched Hex is_run (fun _ => True) released to_exit);
      auto using released_dec.
    - intros n' _. destruct (Hwf n') as (m & Hm & Hs). exists m.
      split; [exact Hm|].
      destruct (released_dec (e m)) as [HG|HG]; [now left|right].
      destruct Hs as [->|Hnone]; [reflexivity|]. exfalso.
      pose proof (execution_Inv B e sched Hex m) as HI.
      destruct (not_released_runnable _ HI HG) as (_ & _ & Hw).
      unfold Run_step in Hnone.
      destruct Hw as [Hw|(q & p & Hw)]; rewrite Hw in Hnone; [discriminate|].
      destruct p as [|r p]; [discriminate|].
      destruct (Process_returns B (mNameBuf (e m)) (requests (e m) r)
                  (inv_buf _ HI)) as (b' & r' & e' & HP & _).
      rewrite HP in Hnone. discriminate.
    - intros s l s' HI Hs _ HG Hl. destruct l; try discriminate.
      inversion Hs; subst. now apply Run_toward_exit.
    - intros s l s' HI Hs _ HG Hl. right.
      destruct (not_released_runnable _ HI HG) as (Hf & Hj' & Hw).
      assert (Hne : l <> LRun) by (intros ->; discriminate).
      unfold to_exit.
      rewrite (step_other_worker B s l s' HI Hs Hne Hw),
              (step_other_pending s l s' Hs Hne Hf Hj'). lia. }
  destruct Hrel as (m & Hnm & Hm).
  assert (Hfind : exists k, (n <= k)%nat /\ worker (e k) = WExited /\
                            joining (e k) = true).
  { clear Hwf. induction Hnm as [|m Hnm IH].
    - destruct Hm as [Hm|Hm]; [eauto|congruence].
    - destruct (joining (e m)) eqn:Ejm.
      + destruct Hm as [Hm|Hm].
        * destruct (joining (e (S m))) eqn:Ejs; [exists (S m); auto|].
          exists m. split; [exact Hnm|]. split; [|exact Ejm].
          exact (join_needs_exit _ _ _ (proj2 Hex m) Ejm Ejs).
        * exists m. split; [exact Hnm|]. split; [|exact Ejm].
          exact (join_needs_exit _ _ _ (proj2 Hex m) Ejm Hm).
      + apply IH. now right. }
  destruct Hfind as (k & Hk & Hw & Hjk). exists k.
  pose proof (execution_Inv B e sched Hex k) as HI.
  destruct (worker_gone_drained _ HI (or_introl Hw)) as (Hq & Ha & Hr).
  repeat split; auto. congruence.
Qed.

End EngineMore.

(** * The model at work *)

Example Process_localhost :
  option_map (fun x => snd (fst x))
    (Process demo_backend demo_buf (host_request "localhost")) =
  Some (mkRequest "localhost" ["::1"%string; "127.0.0.1"%string] 0 "").
Proof. vm_compute. reflexivity. Qed.

Example Process_badaddr :
  option_map (fun x => snd (fst x))
    (Process demo_backend demo_buf (host_request "badaddr")) =
  Some (mkRequest "badaddr" [] EAI_FAMILY "ai_family not supported").
Proof. vm_compute. reflexivity. Qed.

Example Process_unknown_host :
  Process demo_backend demo_buf (host_request "no.such.host.invalid") =
  Some (demo_buf,
        mkRequest "no.such.host.invalid" [] EAI_NONAME
          "Name or service not known",
        [EGetAddrInfo "no.such.host.invalid" mAddrInfoHints]).
Proof. vm_compute. reflexivity. Qed.

Example two_requests_one_batch :
  batches s_two_done = [[7%nat; 9%nat]] /\
  resolved s_two_done = [7%nat; 9%nat] /\
  delivered s_two_done = [7%nat; 9%nat] /\
  notifies s_two_done = 1%nat /\ wakeups s_two_done = 1%nat /\
  mDoneCount s_two_done = 0 /\
  worker s_two_done = WWaiting /\ dispatcher s_two_done = DIdle.
Proof. vm_compute. repeat split; reflexivity. Qed.

Example enqueue_before_start_rejected :
  Enqueue 7 demo_init = (- EINVAL, demo_init).
Proof. reflexivity. Qed.

Example shutdown_twice_is_noop :
  Shutdown_locked (after stopped_trace) = after stopped_trace.
Proof. vm_compute. reflexivity. Qed.

Lemma demo_init_well_constructed : well_constructed demo_init.
Proof. exists demo_requests, demo_buf. split; reflexivity. Qed.

Lemma after_reachable ls :
  run demo_backend ls demo_init <> None -> reachable demo_backend (after ls).
Proof.
  intros H. unfold after.
  destruct (run demo_backend ls demo_init) as [s|] eqn:E; [|now elim H].
  exact (run_reachable _ _ _ _ demo_init_well_constructed E).
Qed.

Lemma stopped_exec_late n : (7 <= n)%nat -> stopped_exec n = stopped_exec 7.
Proof.
  intros H. unfold stopped_exec. rewrite firstn_all2 by exact H. reflexivity.
Qed.

Lemma stopped_sched_late n : (7 <= n)%nat -> stopped_sched n = LShutdown.
Proof. intros H. unfold stopped_sched. now apply nth_overflow. Qed.

Lemma stopped_execution : execution demo_backend stopped_exec stopped_sched.
Proof.
  split; [exact demo_init_well_constructed|].
  intros n. destruct (Nat.lt_ge_cases n 7) as [H|H].
  - do 7 (destruct n as [|n]; [apply fire_step; vm_compute; reflexivity|]). lia.
  - rewrite (stopped_exec_late n), (stopped_exec_late (S n)), stopped_sched_late by lia.
    apply fire_step. vm_compute. reflexivity.
Qed.

Lemma live_exec_late n : (9 <= n)%nat -> live_exec n = live_exec 9.
Proof.
  intros H. unfold live_exec. rewrite firstn_all2 by exact H. reflexivity.
Qed.

Lemma live_sched_late n : (9 <= n)%nat -> live_sched n = LTimeout.
Proof. intros H. unfold live_sched. now apply nth_overflow. Qed.

Lemma live_execution : execution demo_backend live_exec live_sched.
Proof.
  split; [exact demo_init_well_constructed|].
  intros n. destruct (Nat.lt_ge_cases n 9) as [H|H].
  - do 9 (destruct n as [|n]; [apply fire_step; vm_compute; reflexivity|]). lia.
  - rewrite (live_exec_late n), (live_exec_late (S n)), live_sched_late by lia.
    apply fire_step. vm_compute. reflexivity.
Qed.

Lemma live_worker_fair : worker_fair demo_backend live_exec live_sched.
Proof.
  intros n. exists (n + 9)%nat. split; [lia|right].
  rewrite live_exec_late by lia. reflexivity.
Qed.

Lemma live_dispatcher_runs : dispatcher_runs live_sched.
Proof.
  intros n. exists (n + 9)%nat. split; [lia|]. apply live_sched_late. lia.
Qed.

(** C1, on two runs: the run in which request 7 is accepted, resolved and
    called back while the event loop keeps polling, where all of it
    applies; and the run that ends in a completed [Shutdown], where the
    callbacks made are still the first of the requests accepted. *)
Lemma callbacks_exactly_once_witness :
  (execution demo_backend live_exec live_sched /\
   worker_fair demo_backend live_exec live_sched /\
   dispatcher_runs live_sched /\
   (forall k, extends (delivered (live_exec k)) (accepted (live_exec k))) /\
   (forall n, exists m, (n <= m)%nat /\
      forall k, (m <= k)%nat ->
        extends (accepted (live_exec n)) (delivered (live_exec k))) /\
   (forall n r, In r (accepted (live_exec n)) ->
      (forall k, (count_occ Nat.eq_dec (accepted (live_exec k)) r <= 1)%nat) ->
      exists m, (n <= m)%nat /\
        forall k, (m <= k)%nat ->
          count_occ Nat.eq_dec (delivered (live_exec k)) r = 1%nat)) /\
  (execution demo_backend stopped_exec stopped_sched /\
   forall k, extends (delivered (stopped_exec k)) (accepted (stopped_exec k))).
Proof.
  split.
  - split; [exact live_execution|].
    split; [exact live_worker_fair|].
    split; [exact live_dispatcher_runs|].
    split.
    + exact (proj1 (callbacks_exactly_once demo_backend live_exec live_sched
                      live_execution)).
    + exact (proj2 (callbacks_exactly_once demo_backend live_exec live_sched
                      live_execution) live_worker_fair live_dispatcher_runs).
  - split; [exact stopped_execution|].
    exact (proj1 (callbacks_exactly_once demo_backend stopped_exec stopped_sched
                    stopped_execution)).
Defined.

(** C1 fails as stated: request 7 is accepted by a running facade, the
    facade is shut down, and in the execution that follows, fair to the
    worker and to the event loop, its callback is never made: the worker
    has resolved it, but [Timeout] is no longer called. *)
Lemma callback_never_made :
  execution demo_backend stopped_exec stopped_sched /\
  worker_fair demo_backend stopped_exec stopped_sched /\
  dispatcher_fair stopped_exec stopped_sched /\
  mRunFlag (stopped_exec 1) = true /\
  Enqueue 7 (stopped_exec 1) = (0, stopped_exec 2) /\
  In 7%nat (accepted (stopped_exec 2)) /\
  forall m, ~ In 7%nat (delivered (stopped_exec m)).
Proof.
  split; [exact stopped_execution|]. split; [|split].
  - intros n. exists (n + 7)%nat. split; [lia|right].
    rewrite stopped_exec_late by lia. reflexivity.
  - intros n. exists (n + 7)%nat. split; [lia|right].
    rewrite stopped_exec_late by lia. reflexivity.
  - split; [reflexivity|]. split; [vm_compute; reflexivity|].
    split; [now left|].
    intros m. destruct (Nat.lt_ge_cases m 7) as [H|H].
    + do 7 (destruct m as [|m]; [intros []|]). lia.
    + rewrite stopped_exec_late by lia. intros [].
Qed.

(** C2 as amended, on request 7 pending at the shutdown. *)
Lemma Shutdown_drains_pending_witness :
  reachable demo_backend s_pending /\
  mRunFlag s_pending = true /\
  In 7%nat (in_batch s_pending ++ mQueue s_pending) /\
  steps demo_backend (Shutdown_locked s_pending) [LRun; LRun; LRun] s_drained /\
  worker s_drained = WExited /\
  mRunFlag (Shutdown_locked s_pending) = false /\
  mQueue s_drained = [] /\
  In 7%nat (resolved s_drained) /\
  In 7%nat (completed s_drained).
Proof.
  assert (H1 : reachable demo_backend s_pending).
  { apply after_reachable. vm_compute. discriminate. }
  assert (H2 : mRunFlag s_pending = true) by reflexivity.
  assert (H3 : In 7%nat (in_batch s_pending ++ mQueue s_pending)).
  { vm_compute. now left. }
  assert (H4 : steps demo_backend (Shutdown_locked s_pending)
                 [LRun; LRun; LRun] s_drained).
  { apply run_steps. vm_compute. reflexivity. }
  assert (H5 : worker s_drained = WExited) by reflexivity.
  repeat (split; [assumption|]).
  exact (Shutdown_drains_pending demo_backend s_pending _ _ 7%nat H1 H2 H3 H4 H5).
Defined.

(** C2 fails as stated: request 7 is in the pending queue, in no batch,
    when [Shutdown] clears the flag; the worker then splices it, resolves
    it and appends it to the done queue before it exits. *)
Lemma pending_request_resolved_after_shutdown :
  reachable demo_backend s_pending /\
  mRunFlag s_pending = true /\
  mQueue s_pending = [7%nat] /\
  in_batch s_pending = [] /\
  batches s_pending = [] /\
  mRunFlag (Shutdown_locked s_pending) = false /\
  steps demo_backend (Shutdown_locked s_pending) [LRun; LRun; LRun] s_drained /\
  worker s_drained = WExited /\
  batches s_drained = [[7%nat]] /\
  resolved s_drained = [7%nat] /\
  mIpAddresses (requests s_drained 7%nat)
    = ["::1"%string; "127.0.0.1"%string] /\
  mDoneQueue s_drained = [7%nat].
Proof.
  split; [apply after_reachable; vm_compute; discriminate|].
  do 5 (split; [reflexivity|]).
  split; [apply run_steps; vm_compute; reflexivity|].
  repeat split; reflexivity.
Qed.

(** The request left in the done queue by a shutdown is called back when
    the facade is started again and [Timeout] runs. *)
Example callback_after_restart :
  delivered (after stopped_trace) = [] /\
  mDoneQueue (after stopped_trace) = [7%nat] /\
  run demo_backend [LStart; LTimeout; LTimeout; LTimeout] (after stopped_trace)
    = Some s_restarted /\
  delivered s_restarted = [7%nat].
Proof. vm_compute. repeat split; reflexivity. Qed.

(** C3 on "localhost": two addresses kept, one entry skipped. *)
Lemma Process_partial_failure_witness :
  Z.of_nat (length demo_buf) = mNameBuf_size /\
  getaddrinfo demo_backend (mHostName (host_request "localhost")) mAddrInfoHints
    = (0, localhost_entries) /\
  exists buf' req' eff,
    Process demo_backend demo_buf (host_request "localhost")
      = Some (buf', req', eff) /\
    length (mIpAddresses req') = length (formatted demo_backend localhost_entries) /\
    ((forall e, In e localhost_entries -> terminates_text demo_backend e) ->
     mIpAddresses req'
       = map (fmt_text demo_backend) (formatted demo_backend localhost_entries)) /\
    (mIpAddresses req' = [] -> format_errors demo_backend localhost_entries <> [] ->
     mStatus req' = last (format_errors demo_backend localhost_entries) 0 /\
     mStatusMsg req'
       = gai_strerror demo_backend (last (format_errors demo_backend localhost_entries) 0)) /\
    (~ (mIpAddresses req' = [] /\ format_errors demo_backend localhost_entries <> []) ->
     mStatus req' = 0 /\ mStatusMsg req' = EmptyString).
Proof.
  split; [reflexivity|]. split; [reflexivity|].
  apply (Process_partial_failure demo_backend demo_buf (host_request "localhost")
           localhost_entries); reflexivity.
Defined.

(** C6 on a name the backend does not know. *)
Lemma Process_lookup_failure_witness :
  getaddrinfo demo_backend (mHostName (host_request "no.such.host.invalid"))
    mAddrInfoHints = (EAI_NONAME, []) /\
  EAI_NONAME <> 0 /\
  Process demo_backend demo_buf (host_request "no.such.host.invalid") =
  Some (demo_buf,
        mkRequest "no.such.host.invalid" [] EAI_NONAME
          (gai_strerror demo_backend EAI_NONAME),
        [EGetAddrInfo "no.such.host.invalid" mAddrInfoHints]).
Proof.
  split; [reflexivity|]. split; [discriminate|].
  apply (Process_lookup_failure demo_backend demo_buf
           (host_request "no.such.host.invalid") EAI_NONAME []).
  - reflexivity.
  - discriminate.
Defined.

(** C9 on "badaddr", whose only entry cannot be formatted. *)
Lemma Process_status_addresses_witness :
  Z.of_nat (length demo_buf) = mNameBuf_size /\
  exists buf' req' eff,
    Process demo_backend demo_buf (host_request "badaddr")
      = Some (buf', req', eff) /\
    (mStatus req' <> 0 -> mIpAddresses req' = []) /\
    (mIpAddresses req' <> [] -> mStatus req' = 0) /\
    (forall stale,
       Process demo_backend demo_buf
         (set_mIpAddresses stale (host_request "badaddr"))
       = Some (buf', req', eff)).
Proof.
  split; [reflexivity|].
  apply (Process_status_addresses demo_backend demo_buf (host_request "badaddr")).
  reflexivity.
Defined.

(** C10 on the uninitialised buffer and "localhost". *)
Lemma Process_name_buffer_bounds_witness :
  Z.of_nat (length demo_buf) = mNameBuf_size /\
  store (theSize_of AF_INET) NUL demo_buf <> None /\
  store (theSize_of AF_INET6) NUL demo_buf <> None /\
  exists buf' req' eff,
    Process demo_backend demo_buf (host_request "localhost")
      = Some (buf', req', eff) /\
    Z.of_nat (length buf') = mNameBuf_size /\
    Forall sized eff.
Proof.
  assert (Hlen : Z.of_nat (length demo_buf) = mNameBuf_size) by reflexivity.
  destruct (Process_name_buffer_bounds demo_backend) as (_ & _ & Hst & HP).
  split; [exact Hlen|].
  split; [exact (Hst demo_buf NUL Hlen AF_INET)|].
  split; [exact (Hst demo_buf NUL Hlen AF_INET6)|].
  exact (HP demo_buf (host_request "localhost") Hlen).
Defined.

(** C5 on the constructed object (not running) and on a running facade
    whose worker sleeps on the empty pending queue. *)
Lemma Enqueue_contract_witness :
  mRunFlag demo_init = false /\
  Enqueue 7 demo_init = (- EINVAL, demo_init) /\
  mRunFlag (after [LStart; LRun]) = true /\
  mQueue (after [LStart; LRun]) = [] /\
  fst (Enqueue 7 (after [LStart; LRun])) = 0 /\
  mQueue (snd (Enqueue 7 (after [LStart; LRun]))) = [7%nat] /\
  notifies (snd (Enqueue 7 (after [LStart; LRun])))
    = S (notifies (after [LStart; LRun])) /\
  worker (snd (Enqueue 7 (after [LStart; LRun]))) = WReady.
Proof.
  assert (H0 : mRunFlag demo_init = false) by reflexivity.
  assert (H1 : mRunFlag (after [LStart; LRun]) = true) by reflexivity.
  assert (H2 : mQueue (after [LStart; LRun]) = []) by reflexivity.
  destruct (Enqueue_contract 7 demo_init) as [Hoff _].
  destruct (Enqueue_contract 7 (after [LStart; LRun])) as [_ Hon].
  destruct (Hon H1) as (Hret & Hq & _ & Hempty & _).
  destruct (Hempty H2) as [Hn Hw].
  split; [exact H0|]. split; [exact (Hoff H0)|].
  split; [exact H1|]. split; [exact H2|]. split; [exact Hret|].
  split; [exact Hq|]. split; [exact Hn|exact Hw].
Defined.

(** C8 on a shutdown that joins the exited worker. *)
Lemma Start_contract_witness :
  reachable demo_backend s_exited /\
  step demo_backend s_exited LJoin (Shutdown_joined s_exited) /\
  mRunFlag (Shutdown_joined s_exited) = false /\
  fst (Start (Shutdown_joined s_exited)) = 0 /\
  mRunFlag (snd (Start (Shutdown_joined s_exited))) = true.
Proof.
  assert (H1 : reachable demo_backend s_exited).
  { apply after_reachable. vm_compute. discriminate. }
  assert (H2 : step demo_backend s_exited LJoin (Shutdown_joined s_exited)).
  { apply step_Join; reflexivity. }
  split; [exact H1|]. split; [exact H2|].
  destruct (Start_contract demo_backend) as (_ & _ & _ & H).
  exact (H s_exited (Shutdown_joined s_exited) H1 H2).
Defined.

(** C4 as amended, at the end of a batch of one request. *)
Lemma Run_finish_wakeup_witness :
  reachable demo_backend s_batch_end /\
  worker s_batch_end = WProc [7%nat] [] /\
  Run_step demo_backend s_batch_end = Some s_batch_done /\
  mDoneQueue s_batch_done = mDoneQueue s_batch_end ++ [7%nat] /\
  ([7%nat] <> [] /\ mDoneQueue s_batch_end = [] ->
   wakeups s_batch_done = S (wakeups s_batch_end) /\
   mDoneCount s_batch_done = mDoneCount s_batch_end + 1) /\
  (~ ([7%nat] <> [] /\ mDoneQueue s_batch_end = []) ->
   wakeups s_batch_done = wakeups s_batch_end /\
   mDoneCount s_batch_done = mDoneCount s_batch_end).
Proof.
  assert (H1 : reachable demo_backend s_batch_end).
  { apply after_reachable. vm_compute. discriminate. }
  assert (H2 : worker s_batch_end = WProc [7%nat] []) by reflexivity.
  assert (H3 : Run_step demo_backend s_batch_end = Some s_batch_done).
  { vm_compute. reflexivity. }
  split; [exact H1|]. split; [exact H2|]. split; [exact H3|].
  exact (Run_finish_wakeup demo_backend s_batch_end [7%nat] s_batch_done H1 H2 H3).
Defined.

(** C4 fails as stated: the done queue is empty just before the splice of
    an empty batch, and the worker neither increments the counter nor
    wakes the event loop. *)
Lemma empty_batch_no_wakeup :
  reachable demo_backend s_empty_batch /\
  worker s_empty_batch = WProc [] [] /\
  mDoneQueue s_empty_batch = [] /\
  Run_step demo_backend s_empty_batch = Some s_empty_batch_done /\
  mDoneQueue s_empty_batch_done = [] /\
  wakeups s_empty_batch_done = wakeups s_empty_batch /\
  mDoneCount s_empty_batch_done = mDoneCount s_empty_batch.
Proof.
  split; [apply after_reachable; vm_compute; discriminate|].
  do 2 (split; [reflexivity|]).
  split; [vm_compute; reflexivity|].
  repeat split; reflexivity.
Qed.

(** C7 on requests 7 and 9, accepted in this order into one batch. *)
Lemma batch_order_witness :
  reachable demo_backend s_two_done /\
  NoDup (accepted s_two_done) /\
  In [7%nat; 9%nat] (batches s_two_done) /\
  precedes 7 9 [7%nat; 9%nat] /\
  (In 9%nat (resolved s_two_done) -> precedes 7 9 (resolved s_two_done)) /\
  (In 9%nat (delivered s_two_done) -> precedes 7 9 (delivered s_two_done)).
Proof.
  assert (H1 : reachable demo_backend s_two_done).
  { apply after_reachable. vm_compute. discriminate. }
  assert (H2 : NoDup (accepted s_two_done)).
  { vm_compute. repeat constructor; cbn; intuition lia. }
  assert (H3 : In [7%nat; 9%nat] (batches s_two_done)).
  { vm_compute. now left. }
  assert (H4 : precedes 7 9 [7%nat; 9%nat]).
  { exists [], [], []. reflexivity. }
  split; [exact H1|]. split; [exact H2|]. split; [exact H3|]. split; [exact H4|].
  destruct (batch_order demo_backend s_two_done H1) as (_ & _ & _ & H).
  exact (H [7%nat; 9%nat] 7%nat 9%nat H2 H3 H4).
Defined.

(** * More of the model at work *)

Lemma demo_terminates_text e :
  In e localhost_entries -> terminates_text demo_backend e.
Proof.
  intros [<-|[<-|[<-|[]]]]; intros Hok; try discriminate;
    vm_compute; repeat (try (left; reflexivity); right).
Qed.

Lemma stopped_worker_fair : worker_fair demo_backend stopped_exec stopped_sched.
Proof.
  intros n. exists (n + 7)%nat. split; [lia|right].
  rewrite stopped_exec_late by lia. reflexivity.
Qed.

(** X1 on "badaddr". *)
Lemma Process_message_matches_status_witness :
  Z.of_nat (length demo_buf) = mNameBuf_size /\
  exists buf' req' eff,
    Process demo_backend demo_buf (host_request "badaddr")
      = Some (buf', req', eff) /\
    mHostName req' = mHostName (host_request "badaddr") /\
    mStatusMsg req' =
      (if mStatus req' =? 0 then EmptyString
       else gai_strerror demo_backend (mStatus req')).
Proof.
  split; [reflexivity|].
  apply (Process_message_matches_status demo_backend demo_buf
           (host_request "badaddr")).
  reflexivity.
Defined.

(** X2 on "localhost", whose second entry is of a family that is skipped. *)
Lemma Process_formats_supported_entries_witness :
  Z.of_nat (length demo_buf) = mNameBuf_size /\
  getaddrinfo demo_backend (mHostName (host_request "localhost")) mAddrInfoHints
    = (0, localhost_entries) /\
  exists buf' req' eff,
    Process demo_backend demo_buf (host_request "localhost")
      = Some (buf', req', eff) /\
    formatting_calls eff = filter supported localhost_entries.
Proof.
  split; [reflexivity|]. split; [reflexivity|].
  apply (Process_formats_supported_entries demo_backend demo_buf
           (host_request "localhost") localhost_entries); reflexivity.
Defined.

(** X3 on "localhost". *)
Lemma Process_frees_result_once_witness :
  Z.of_nat (length demo_buf) = mNameBuf_size /\
  exists buf' req' eff,
    Process demo_backend demo_buf (host_request "localhost")
      = Some (buf', req', eff) /\
    filter is_free eff = [EFreeAddrInfo localhost_entries].
Proof.
  split; [reflexivity|].
  apply (Process_frees_result_once demo_backend demo_buf
           (host_request "localhost")).
  reflexivity.
Defined.

(** X4 on "localhost". *)
Lemma Process_addresses_bounded_witness :
  Z.of_nat (length demo_buf) = mNameBuf_size /\
  exists buf' req' eff,
    Process demo_backend demo_buf (host_request "localhost")
      = Some (buf', req', eff) /\
    Forall (fun a => Z.of_nat (String.length a) <= INET6_ADDRSTRLEN)
      (mIpAddresses req').
Proof.
  split; [reflexivity|].
  apply (Process_addresses_bounded demo_backend demo_buf
           (host_request "localhost")).
  reflexivity.
Defined.

(** X5 on "localhost", from the uninitialised and from a used buffer. *)
Lemma Process_ignores_buffer_contents_witness :
  Z.of_nat (length demo_buf) = mNameBuf_size /\
  Z.of_nat (length used_buf) = mNameBuf_size /\
  (forall e, In e localhost_entries -> terminates_text demo_backend e) /\
  exists b1 b2 req' eff,
    Process demo_backend demo_buf (host_request "localhost")
      = Some (b1, req', eff) /\
    Process demo_backend used_buf (host_request "localhost")
      = Some (b2, req', eff).
Proof.
  split; [reflexivity|]. split; [reflexivity|].
  split; [exact demo_terminates_text|].
  apply (Process_ignores_buffer_contents demo_backend demo_buf used_buf
           (host_request "localhost")).
  - reflexivity.
  - reflexivity.
  - exact demo_terminates_text.
Defined.

(** X6 on a chain whose only entry is of a family that is skipped. *)
Lemma Process_no_supported_entry_witness :
  getaddrinfo unix_only_backend (mHostName (host_request "socket"))
    mAddrInfoHints = (0, [mkAddrInfo 0 1 SOCK_STREAM 0 110 []]) /\
  filter supported [mkAddrInfo 0 1 SOCK_STREAM 0 110 []] = [] /\
  Process unix_only_backend demo_buf (host_request "socket") =
  Some (demo_buf, mkRequest "socket" [] 0 EmptyString,
        [EGetAddrInfo "socket" mAddrInfoHints;
         EFreeAddrInfo [mkAddrInfo 0 1 SOCK_STREAM 0 110 []]]).
Proof.
  split; [reflexivity|]. split; [reflexivity|].
  apply (Process_no_supported_entry unix_only_backend demo_buf (host_request "socket")
           [mkAddrInfo 0 1 SOCK_STREAM 0 110 []]); reflexivity.
Defined.

(** X8 on the sleeping worker and on two pending requests. *)
Lemma no_lost_wakeup_witness :
  reachable demo_backend s_sleeping /\
  worker s_sleeping = WWaiting /\
  mRunFlag s_sleeping = true /\ joining s_sleeping = false /\
  mQueue s_sleeping = [] /\
  reachable demo_backend s_two_pending /\
  mQueue s_two_pending <> [] /\
  Run_step demo_backend s_two_pending <> None.
Proof.
  assert (H1 : reachable demo_backend s_sleeping).
  { apply after_reachable. vm_compute. discriminate. }
  assert (H2 : worker s_sleeping = WWaiting) by reflexivity.
  assert (H3 : reachable demo_backend s_two_pending).
  { apply after_reachable. vm_compute. discriminate. }
  assert (H4 : mQueue s_two_pending <> []) by (vm_compute; discriminate).
  split; [exact H1|]. split; [exact H2|].
  destruct (no_lost_wakeup demo_backend s_sleeping H1) as [Hs _].
  destruct (Hs H2) as (Ha & Hb & Hc).
  destruct (no_lost_wakeup demo_backend s_two_pending H3) as [_ Hp].
  split; [exact Ha|]. split; [exact Hb|]. split; [exact Hc|].
  split; [exact H3|]. split; [exact H4|exact (Hp H4)].
Defined.

(** X9 at the end of a batch of one request, the done queue empty: a
    [Timeout] that tests the counter between lines 132 and 134 returns
    although request 7 is on the done queue, and the worker leaves the
    critical section with the counter at 1 and the event loop woken. *)
Lemma done_counter_tracks_queue_witness :
  reachable demo_backend s_batch_end /\
  worker s_batch_end = WProc [7%nat] [] /\
  mDoneQueue (Run_spliced [7%nat] s_batch_end) = [7%nat] /\
  mDoneCount (Run_spliced [7%nat] s_batch_end) = 0 /\
  Timeout_step (Run_spliced [7%nat] s_batch_end)
    = Some (Run_spliced [7%nat] s_batch_end) /\
  Run_step demo_backend s_batch_end = Some (Run_finish [7%nat] s_batch_end) /\
  mDoneQueue (Run_finish [7%nat] s_batch_end) = [7%nat] /\
  mDoneCount (Run_finish [7%nat] s_batch_end) = 1 /\
  wakeups (Run_finish [7%nat] s_batch_end) = S (wakeups s_batch_end).
Proof.
  assert (H1 : reachable demo_backend s_batch_end).
  { apply after_reachable. vm_compute. discriminate. }
  assert (H2 : worker s_batch_end = WProc [7%nat] []) by reflexivity.
  assert (H3 : mDoneQueue (Run_spliced [7%nat] s_batch_end) = [7%nat])
    by reflexivity.
  assert (H4 : mDoneCount (Run_spliced [7%nat] s_batch_end) = 0)
    by reflexivity.
  assert (H5 : dispatcher s_batch_end = DIdle) by reflexivity.
  assert (H6 : registered s_batch_end = true) by reflexivity.
  assert (H7 : mDoneQueue (Run_spliced [7%nat] s_batch_end) <> []).
  { rewrite H3. discriminate. }
  destruct (done_counter_tracks_queue demo_backend s_batch_end H1)
    as [_ Hq].
  destruct (Hq [7%nat] H2) as (_ & Ht & Hrun & Hdq & _ & Hup).
  destruct (Hup H7 H4) as [Hcnt Hwk].
  split; [exact H1|]. split; [exact H2|]. split; [exact H3|].
  split; [exact H4|]. split; [exact (Ht H5 H6 H4)|]. split; [exact Hrun|].
  split; [rewrite Hdq; exact H3|]. split; [exact Hcnt|exact Hwk].
Defined.

(** X10 with two pending requests. *)
Lemma pipeline_conservation_witness :
  reachable demo_backend s_two_pending /\
  NoDup (accepted s_two_pending) /\
  In 9%nat (mQueue s_two_pending) /\
  accepted s_two_pending =
    delivered s_two_pending ++ in_delivery s_two_pending ++
    mDoneQueue s_two_pending ++ in_batch s_two_pending ++
    mQueue s_two_pending /\
  ~ In 9%nat (in_batch s_two_pending) /\
  ~ In 9%nat (mDoneQueue s_two_pending) /\
  ~ In 9%nat (in_delivery s_two_pending) /\
  ~ In 9%nat (delivered s_two_pending).
Proof.
  assert (H1 : reachable demo_backend s_two_pending).
  { apply after_reachable. vm_compute. discriminate. }
  assert (H2 : NoDup (accepted s_two_pending)).
  { vm_compute. repeat constructor; cbn; intuition lia. }
  assert (H3 : In 9%nat (mQueue s_two_pending)).
  { vm_compute. right. now left. }
  split; [exact H1|]. split; [exact H2|]. split; [exact H3|].
  destruct (pipeline_conservation demo_backend s_two_pending H1) as [Ha Hb].
  split; [exact Ha|]. exact (Hb H2 9%nat H3).
Defined.

(** X11 on the facade that has been shut down. *)
Lemma lifecycle_phases_witness :
  reachable demo_backend (stopped_exec 7) /\
  mRunFlag (stopped_exec 7) = false /\ joining (stopped_exec 7) = false /\
  worker (stopped_exec 7) = WNone /\ registered (stopped_exec 7) = false /\
  mQueue (stopped_exec 7) = [] /\
  accepted (stopped_exec 7) = completed (stopped_exec 7) /\
  resolved (stopped_exec 7) = completed (stopped_exec 7).
Proof.
  assert (H1 : reachable demo_backend (stopped_exec 7)).
  { apply after_reachable. vm_compute. discriminate. }
  assert (H2 : mRunFlag (stopped_exec 7) = false) by reflexivity.
  assert (H3 : joining (stopped_exec 7) = false) by reflexivity.
  split; [exact H1|]. split; [exact H2|]. split; [exact H3|].
  destruct (lifecycle_phases demo_backend (stopped_exec 7) H1) as (_ & H & _).
  exact (H H2 H3).
Defined.

(** X12 with two requests in the done queue. *)
Lemma Timeout_delivers_done_queue_witness :
  reachable demo_backend s_two_resolved /\
  dispatcher s_two_resolved = DIdle /\ registered s_two_resolved = true /\
  mDoneQueue s_two_resolved <> [] /\
  exists s',
    run demo_backend (repeat LTimeout (length (mDoneQueue s_two_resolved) + 3))
      s_two_resolved = Some s' /\
    delivered s' = delivered s_two_resolved ++ mDoneQueue s_two_resolved /\
    mDoneQueue s' = [] /\ mDoneCount s' = 0 /\ dispatcher s' = DIdle /\
    mQueue s' = mQueue s_two_resolved /\ worker s' = worker s_two_resolved /\
    accepted s' = accepted s_two_resolved /\
    requests s' = requests s_two_resolved.
Proof.
  assert (H1 : reachable demo_backend s_two_resolved).
  { apply after_reachable. vm_compute. discriminate. }
  assert (H2 : dispatcher s_two_resolved = DIdle) by reflexivity.
  assert (H3 : registered s_two_resolved = true) by reflexivity.
  assert (H4 : mDoneQueue s_two_resolved <> []) by (vm_compute; discriminate).
  split; [exact H1|]. split; [exact H2|]. split; [exact H3|]. split; [exact H4|].
  destruct (Timeout_delivers_done_queue demo_backend s_two_resolved H1 H2 H3)
    as [_ H].
  exact (H H4).
Defined.

(** X13 with two pending requests. *)
Lemma Run_drains_pending_queue_witness :
  reachable demo_backend s_two_pending /\
  worker s_two_pending = WReady /\ mQueue s_two_pending <> [] /\
  exists s',
    run demo_backend (repeat LRun (length (mQueue s_two_pending) + 2))
      s_two_pending = Some s' /\
    batches s' = batches s_two_pending ++ [mQueue s_two_pending] /\
    resolved s' = resolved s_two_pending ++ mQueue s_two_pending /\
    mDoneQueue s' = mDoneQueue s_two_pending ++ mQueue s_two_pending /\
    mQueue s' = [] /\ mDoneCount s' = 1 /\
    wakeups s' =
      (wakeups s_two_pending +
       if Queue.IsEmpty (mDoneQueue s_two_pending) then 1 else 0)%nat /\
    worker s' = (if mRunFlag s_two_pending then WWaiting else WExited) /\
    delivered s' = delivered s_two_pending /\
    accepted s' = accepted s_two_pending.
Proof.
  assert (H1 : reachable demo_backend s_two_pending).
  { apply after_reachable. vm_compute. discriminate. }
  assert (H2 : worker s_two_pending = WReady) by reflexivity.
  assert (H3 : mQueue s_two_pending <> []) by (vm_compute; discriminate).
  split; [exact H1|]. split; [exact H2|]. split; [exact H3|].
  exact (Run_drains_pending_queue demo_backend s_two_pending H1 H2 H3).
Defined.

(** X15 on request 7 in the done queue. *)
Lemma callback_sees_consistent_result_witness :
  reachable demo_backend s_two_resolved /\
  In 7%nat (mDoneQueue s_two_resolved) /\
  In 7%nat (resolved s_two_resolved) /\
  result_consistent demo_backend (requests s_two_resolved 7%nat).
Proof.
  assert (H1 : reachable demo_backend s_two_resolved).
  { apply after_reachable. vm_compute. discriminate. }
  assert (H2 : In 7%nat (mDoneQueue s_two_resolved)) by (vm_compute; now left).
  split; [exact H1|]. split; [exact H2|].
  exact (callback_sees_consistent_result demo_backend s_two_resolved H1 7%nat
           (or_intror (or_introl H2))).
Defined.

(** X16 on the sleeping worker. *)
Lemma spurious_wakeup_harmless_witness :
  reachable demo_backend s_sleeping /\ worker s_sleeping = WWaiting /\
  run demo_backend [LSpurious; LRun] s_sleeping = Some s_sleeping.
Proof.
  assert (H1 : reachable demo_backend s_sleeping).
  { apply after_reachable. vm_compute. discriminate. }
  assert (H2 : worker s_sleeping = WWaiting) by reflexivity.
  split; [exact H1|]. split; [exact H2|].
  exact (spurious_wakeup_harmless demo_backend s_sleeping H1 H2).
Defined.

(** X17 after two requests went through in one batch. *)
Lemma wakeups_coalesced_witness :
  reachable demo_backend s_two_done /\
  (wakeups s_two_done + (if Queue.IsEmpty (in_batch s_two_done) then 0 else 1)
   <= nonempty_batches s_two_done)%nat.
Proof.
  assert (H1 : reachable demo_backend s_two_done).
  { apply after_reachable. vm_compute. discriminate. }
  split; [exact H1|]. exact (wakeups_coalesced demo_backend s_two_done H1).
Defined.

(** X18 on the shutdown of the run with one accepted request. *)
Lemma Shutdown_join_returns_witness :
  execution demo_backend stopped_exec stopped_sched /\
  worker_fair demo_backend stopped_exec stopped_sched /\
  joining (stopped_exec 3) = true /\
  exists m, (3 <= m)%nat /\
    worker (stopped_exec m) = WExited /\ joining (stopped_exec m) = true /\
    mQueue (stopped_exec m) = [] /\
    resolved (stopped_exec m) = accepted (stopped_exec m).
Proof.
  assert (H3 : joining (stopped_exec 3) = true) by reflexivity.
  split; [exact stopped_execution|]. split; [exact stopped_worker_fair|].
  split; [exact H3|].
  exact (Shutdown_join_returns demo_backend stopped_exec stopped_sched
           stopped_execution stopped_worker_fair 3%nat H3).
Defined.

(** X7 on a running facade with a sleeping worker. *)
Lemma Shutdown_then_rejects_witness :
  mRunFlag s_sleeping = true /\
  mRunFlag (Shutdown_locked s_sleeping) = false /\
  Shutdown_locked (Shutdown_locked s_sleeping) = Shutdown_locked s_sleeping /\
  Enqueue 7 (Shutdown_locked s_sleeping)
    = (- EINVAL, Shutdown_locked s_sleeping) /\
  mRunFlag demo_init = false /\
  Shutdown_locked demo_init = demo_init.
Proof.
  assert (H0 : mRunFlag demo_init = false) by reflexivity.
  destruct (Shutdown_then_rejects s_sleeping 7%nat) as (Ha & Hb & Hc & _).
  destruct (Shutdown_then_rejects demo_init 7%nat) as (_ & _ & _ & Hd).
  split; [reflexivity|]. split; [exact Ha|]. split; [exact Hb|].
  split; [exact Hc|]. split; [exact H0|exact (Hd H0)].
Defined.
